(** * PromoSearch: retrieval, ranking and placement of promotions

    A shallow embedding of the retrieval-ranking-placement pipeline:
    - [models/embedder.py]  ([PromotionIndex]: build, search, profile boost),
    - [models/ranker.py]    ([PromotionRanker]: features, fallback scorer,
      rank),
    - [mcp_server/tools/rank_promotions.py] and
      [mcp_server/tools/optimize_ad_slots.py] (the tool wrappers and the
      ad-slot placement),
    - [mcp_server/tools/search_promotions.py] (the search tool and the shape
      of its response),
    - [mcp_server/tools/expand_query.py] (the expansion tool and its
      rule-based fallback),
    - [agents/demo_agent.py] (the removal of duplicate results).

    Modelling conventions.
    - A Python [float] (and numpy's [float64]) is Rocq's primitive binary64
      [float]; every arithmetic operation and comparison is the IEEE one.
    - A Python [int] is [Z] where it can be negative ([top_k]) and [nat] where
      it is a length or an index.
    - A promotion or profile dictionary is a record of optional fields, one per
      key the code reads; [None] is an absent key.
    - Dictionaries that the index stores are objects in a heap
      ([gmap loc Promotion]); [dict.copy()] allocates a fresh object.
    - A Python [str] is the byte string of its UTF-8 encoding.
    - [list.sort] is a stable sort that only uses [<]; with [reverse=True] the
      list is reversed before and after sorting.
    - The embedding provider, numpy's reductions and random draws, the
      LightGBM booster and the regular-expression keyword extraction are
      parameters of the functions that call them. *)

From Stdlib Require Import ZArith Lia List Bool Ascii String.
From Stdlib Require Import Floats.
From stdpp Require Import base option list sorting gmap strings pretty.

Set Warnings "-inexact-float".
Local Open Scope Z_scope.
Local Open Scope string_scope.
Local Open Scope list_scope.
Local Open Scope nat_scope.

(* ================================================================== *)
(** * Part I: definitions *)
(* ================================================================== *)

(** ** Python and numpy floating-point helpers *)

Module PyFloat.

(** [float(n)] for a non-negative [int] (a length or a count). *)
Definition of_nat (n : nat) : float :=
  PrimFloat.of_uint63 (Uint63.of_Z (Z.of_nat n)).

(** The builtin [min(a, b)]: [b] replaces [a] only when [b < a]. *)
Definition py_min (a b : float) : float :=
  if PrimFloat.ltb b a then b else a.

(** [np.maximum] and [np.minimum] propagate a NaN of the first argument and
    otherwise select with one comparison; [np.clip(x, lo, hi)] is
    [np.minimum(np.maximum(x, lo), hi)]. *)
Definition np_maximum (a b : float) : float :=
  if PrimFloat.is_nan a then a else if PrimFloat.ltb b a then a else b.

Definition np_minimum (a b : float) : float :=
  if PrimFloat.is_nan a then a else if PrimFloat.ltb a b then a else b.

Definition np_clip (x lo hi : float) : float :=
  np_minimum (np_maximum x lo) hi.

(** Numerical agreement of two floats: Python's [==], extended so that a NaN
    agrees with a NaN.  It identifies [-0.0] and [0.0]. *)
Definition feq (x y : float) : bool :=
  (PrimFloat.is_nan x && PrimFloat.is_nan y) || PrimFloat.eqb x y.

(** Two floats that are the same, or the negative and the positive zero. *)
Definition same_or_zeros (a b : float) : Prop :=
  a = b \/ (a = (-0)%float /\ b = 0%float).

(** A position of a non-NaN float in a lexicographically ordered triple of
    integers: class (infinities, signs, zero), then exponent, then mantissa. *)
Definition sf_key (x : spec_float) : Z * Z * Z :=
  match x with
  | S754_nan => (0, 0, 0)%Z
  | S754_zero _ => (0, 0, 0)%Z
  | S754_infinity true => (-2, 0, 0)%Z
  | S754_infinity false => (2, 0, 0)%Z
  | S754_finite true m e => (-1, - e, Z.neg m)%Z
  | S754_finite false m e => (1, e, Z.pos m)%Z
  end.

Definition key_lt (a b : Z * Z * Z) : Prop :=
  let '(a1, a2, a3) := a in
  let '(b1, b2, b3) := b in
  (a1 < b1 \/ (a1 = b1 /\ (a2 < b2 \/ (a2 = b2 /\ a3 < b3))))%Z.

Definition key (x : float) : Z * Z * Z := sf_key (Prim2SF x).

(** The three-way comparison of two such triples. *)
Definition key_cmp (a b : Z * Z * Z) : comparison :=
  let '(a1, a2, a3) := a in
  let '(b1, b2, b3) := b in
  match (a1 ?= b1)%Z with
  | Eq => match (a2 ?= b2)%Z with
          | Eq => (a3 ?= b3)%Z
          | c => c
          end
  | c => c
  end.

End PyFloat.

(** ** [list.sort] and slicing *)

Module PyList.

Section Sort.
Context {A : Type} (lt : A -> A -> bool).

(** Insertion of [x] in front of the first element that is not below it. *)
Fixpoint insert_sorted (x : A) (l : list A) : list A :=
  match l with
  | [] => [x]
  | y :: l' => if lt y x then y :: insert_sorted x l' else x :: y :: l'
  end.

(** [l.sort()]: stable, ascending, by [<] alone.  When [<] orders the
    elements (a strict weak order: for scores, no NaN among them) a stable
    ascending sort has one possible result, which is this one.  When it does
    not, as with a NaN score, [list.sort] still returns a permutation of the
    list, but which one depends on the comparisons its merge strategy makes;
    statements about the order of a sorted list therefore carry the
    hypothesis that the scores are numbers, and the others only use that the
    result is a permutation. *)
Definition sort (l : list A) : list A := foldr insert_sorted [] l.

(** [l.sort(reverse=True)]: reverse, sort, reverse. *)
Definition sort_reverse (l : list A) : list A :=
  reverse (sort (reverse l)).

End Sort.

(** [l[:k]] for an [int] k: a negative [k] counts from the end. *)
Definition slice_to {A : Type} (k : Z) (l : list A) : list A :=
  if (0 <=? k)%Z then take (Z.to_nat k) l
  else take (Z.to_nat (Z.of_nat (length l) + k)) l.

(** [enumerate(l)], counting from [i]. *)
Fixpoint enumerate_from {A : Type} (i : nat) (l : list A) : list (nat * A) :=
  match l with
  | [] => []
  | x :: l' => (i, x) :: enumerate_from (S i) l'
  end.

Definition enumerate {A : Type} (l : list A) : list (nat * A) :=
  enumerate_from 0 l.

(** [(s1, i1) < (s2, i2)] on tuples: the first components decide unless they
    are [==]. *)
Definition tuple_lt (a b : float * nat) : bool :=
  if PrimFloat.eqb (fst a) (fst b) then Nat.ltb (snd a) (snd b)
  else PrimFloat.ltb (fst a) (fst b).

(** The order of a list of tuples sorted by [sort(reverse=True)]: descending
    scores, and among equal scores descending indices. *)
Definition descending (a b : float * nat) : Prop :=
  PrimFloat.ltb a.1 b.1 = false
  /\ (PrimFloat.eqb a.1 b.1 = true -> b.2 < a.2).

(** [len(set(a) & set(b))] for lists of strings. *)
Definition overlap (a b : list string) : nat :=
  size ((list_to_set a : gset string) ∩ list_to_set b).

End PyList.

(** ** Data model *)

(** A promotion dictionary.  [p_score] is the ['score'] key that [search]
    adds to its results. *)
Record Promotion := mkPromotion {
  p_id : option string;
  p_title : option string;
  p_description : option string;
  p_link : option string;
  p_categories : option (list string);
  p_price_tier : option string;
  p_base_ctr : option float;
  p_score : option float
}.

(** A user-profile dictionary. *)
Record UserProfile := mkUserProfile {
  user_type : option string;
  interests : option (list string);
  budget_level : option string
}.

(** Truth value of a dictionary: [{}] is false. *)
Definition profile_truthy (u : UserProfile) : bool :=
  match user_type u, interests u, budget_level u with
  | None, None, None => false
  | _, _, _ => true
  end.

(** [promo['score'] = s]. *)
Definition set_score (s : float) (p : Promotion) : Promotion :=
  mkPromotion (p_id p) (p_title p) (p_description p) (p_link p)
              (p_categories p) (p_price_tier p) (p_base_ctr p) (Some s).

(** [d.get(k, dflt)]. *)
Definition get {A : Type} (field : option A) (dflt : A) : A :=
  default dflt field.

(** ** [models/embedder.py]: the promotion index *)

Module Embedder.

Import PyFloat PyList.

Abbreviation loc := nat (only parsing).
Abbreviation EmbeddingVector := (list float) (only parsing).

(** [PromotionIndex]: the stored records are references to dictionaries. *)
Record PromotionIndex := mkIndex {
  promotions : list loc;
  embeddings : option (list EmbeddingVector);
  index_built : bool
}.

(** The objects a call can reach: the dictionaries, the index and the
    pickled embedding cache on disk. *)
Record World := mkWorld {
  heap : gmap loc Promotion;
  index : PromotionIndex;
  cache : option (list EmbeddingVector)
}.

Definition empty_index : PromotionIndex := mkIndex [] None false.

Definition set_heap (h : gmap loc Promotion) (w : World) : World :=
  mkWorld h (index w) (cache w).

(** [self.promotions.extend(promotions); self.index_built = False]. *)
Definition add_promotions (new : list loc) (w : World) : World :=
  mkWorld (heap w)
          (mkIndex (promotions (index w) ++ new) (embeddings (index w)) false)
          (cache w).

(** [f"{promo.get('title', '')} {promo.get('description', '')}"]. *)
Definition promo_text (p : Promotion) : string :=
  get (p_title p) "" +:+ " " +:+ get (p_description p) "".

Section Model.

(** The embedding provider (one vector per text) and the two numpy
    reductions that [similarity] calls.  [np_dot] is the product of two
    vectors of one dimension, as the provider makes them; [np.dot] raises on
    a cached row of another dimension, and that run of [search] is not
    described here. *)
Variable encode_text : string -> EmbeddingVector.
Variable np_dot : EmbeddingVector -> EmbeddingVector -> float.
Variable np_linalg_norm : EmbeddingVector -> float.

Definition encode (texts : list string) : list EmbeddingVector :=
  map encode_text texts.

Definition similarity (embedding1 embedding2 : EmbeddingVector) : float :=
  (np_dot embedding1 embedding2
   / (np_linalg_norm embedding1 * np_linalg_norm embedding2))%float.

(** [build_index]; [None] is a raised exception. *)
Definition build_index (force_rebuild : bool) (w : World) : option World :=
  let ix := index w in
  if index_built ix && negb force_rebuild then Some w
  else match promotions ix with
  | [] => Some w
  | _ :: _ =>
    let rebuild :=
      texts ← mapM (fun l => promo_text <$> heap w !! l) (promotions ix);
      let embs := encode texts in
      Some (mkWorld (heap w) (mkIndex (promotions ix) (Some embs) true)
                    (Some embs)) in
    match cache w with
    | Some cached_embeddings =>
      if Nat.eqb (length cached_embeddings) (length (promotions ix))
         && negb force_rebuild
      then Some (mkWorld (heap w)
                   (mkIndex (promotions ix) (Some cached_embeddings) true)
                   (cache w))
      else rebuild
    | None => rebuild
    end
  end.

Definition _apply_user_profile_boost (base_score : float)
    (promotion : Promotion) (user_profile : UserProfile) : float :=
  let boosted_score := base_score in
  let user_interests := get (interests user_profile) [] in
  let promo_categories := get (p_categories promotion) [] in
  let interest_overlap := overlap user_interests promo_categories in
  let boosted_score :=
    if Nat.ltb 0 interest_overlap
    then (boosted_score + 0.1 * of_nat interest_overlap)%float
    else boosted_score in
  let user_budget := get (budget_level user_profile) "medium" in
  let promo_price_tier := get (p_price_tier promotion) "medium" in
  let boosted_score :=
    if String.eqb user_budget promo_price_tier
    then (boosted_score + 0.05)%float
    else if (String.eqb user_budget "high"
             && String.eqb promo_price_tier "medium")
            || (String.eqb user_budget "medium"
                && String.eqb promo_price_tier "low")
    then (boosted_score + 0.02)%float
    else boosted_score in
  py_min boosted_score 1.0%float.

(** The boost in the specification's words: the budget term, and the sum
    clamped above at 1.0. *)
Definition budget_term (budget tier : string) : float :=
  if String.eqb budget tier then 0.05%float
  else if (String.eqb budget "high" && String.eqb tier "medium")
          || (String.eqb budget "medium" && String.eqb tier "low")
  then 0.02%float
  else 0%float.

Definition boost_sum (base : float) (n : nat) (budget tier : string) : float :=
  (base + 0.1 * of_nat n + budget_term budget tier)%float.

Definition boost_formula (base : float) (n : nat) (budget tier : string)
    : float :=
  if PrimFloat.ltb 1.0 (boost_sum base n budget tier) then 1.0%float
  else boost_sum base n budget tier.

(** One iteration of the similarity loop of [search]. *)
Definition score_one (query_embedding : EmbeddingVector)
    (user_profile : option UserProfile) (w : World)
    (ie : nat * EmbeddingVector) : option (float * nat) :=
  let '(i, promo_embedding) := ie in
  let similarity0 := similarity query_embedding promo_embedding in
  match user_profile with
  | Some u =>
    if profile_truthy u then
      l ← promotions (index w) !! i;
      p ← heap w !! l;
      Some (_apply_user_profile_boost similarity0 p u, i)
    else Some (similarity0, i)
  | None => Some (similarity0, i)
  end.

(** The result loop of [search]: copy the record, set its score. *)
Fixpoint collect (top : list (float * nat)) (w : World)
    : option (list loc * World) :=
  match top with
  | [] => Some ([], w)
  | (similarity0, idx) :: rest =>
    l ← promotions (index w) !! idx;
    p ← heap w !! l;
    let promo := fresh (dom (heap w)) in
    let w1 := set_heap (<[promo := set_score similarity0 p]> (heap w)) w in
    '(results, w2) ← collect rest w1;
    Some (promo :: results, w2)
  end.

(** [if not self.index_built: self.build_index()]. *)
Definition ensure_built (w : World) : option World :=
  if index_built (index w) then Some w else build_index false w.

(** The list [similarities] of [search] before it is sorted; the query
    embedding is [encode([query])[0]]. *)
Definition similarities (query : string) (user_profile : option UserProfile)
    (w : World) (embs : list EmbeddingVector) : option (list (float * nat)) :=
  let query_embedding := encode_text query in
  mapM (score_one query_embedding user_profile w) (enumerate embs).

(** [search]: the references of the result dictionaries and the world after
    the call; [None] is a raised exception. *)
Definition search (query : string) (top_k : Z)
    (user_profile : option UserProfile) (w : World)
    : option (list loc * World) :=
  w ← ensure_built w;
  match promotions (index w), embeddings (index w) with
  | [], _ => Some ([], w)
  | _ :: _, None => Some ([], w)
  | _ :: _, Some embs =>
    sims ← similarities query user_profile w embs;
    collect (slice_to top_k (sort_reverse tuple_lt sims)) w
  end.

(** The scores [search] computes, one per stored record, before sorting. *)
Definition all_scores (query : string) (user_profile : option UserProfile)
    (w : World) : option (list (float * nat)) :=
  w ← ensure_built w;
  match promotions (index w), embeddings (index w) with
  | _ :: _, Some embs => similarities query user_profile w embs
  | _, _ => Some []
  end.

(** The dictionaries [search] returns, read from the final heap. *)
Definition search_records (query : string) (top_k : Z)
    (user_profile : option UserProfile) (w : World)
    : option (list Promotion) :=
  '(results, w') ← search query top_k user_profile w;
  mapM (fun r => heap w' !! r) results.

End Model.

(** [r] is a fresh copy of the record stored at index [si.2], with the score
    [si.1] set. *)
Definition result_of (w w' : World) (r : loc) (si : float * nat) : Prop :=
  heap w !! r = None
  /\ exists l p,
       promotions (index w) !! si.2 = Some l
       /\ heap w !! l = Some p
       /\ heap w' !! r = Some (set_score si.1 p).

(** The state invariant of the index: stored references are live, and a built
    index has one embedding per record. *)
Definition wf_world (w : World) : Prop :=
  (∀ l, l ∈ promotions (index w) → is_Some (heap w !! l)) ∧
  (index_built (index w) = true →
   ∃ embs, embeddings (index w) = Some embs ∧
           length embs = length (promotions (index w))).

(** The states the operations of the index produce from a new index; the
    caller may create dictionaries and may overwrite one it holds. *)
Inductive reachable (encode_text : string -> EmbeddingVector)
    (np_dot : EmbeddingVector -> EmbeddingVector -> float)
    (np_linalg_norm : EmbeddingVector -> float) : World -> Prop :=
  | reach_new h c :
      reachable encode_text np_dot np_linalg_norm (mkWorld h empty_index c)
  | reach_store w l p :
      reachable encode_text np_dot np_linalg_norm w ->
      reachable encode_text np_dot np_linalg_norm
                (set_heap (<[l := p]> (heap w)) w)
  | reach_add w new :
      reachable encode_text np_dot np_linalg_norm w ->
      (forall l, l ∈ new -> is_Some (heap w !! l)) ->
      reachable encode_text np_dot np_linalg_norm (add_promotions new w)
  | reach_build w force_rebuild w' :
      reachable encode_text np_dot np_linalg_norm w ->
      build_index encode_text force_rebuild w = Some w' ->
      reachable encode_text np_dot np_linalg_norm w'
  | reach_search w query top_k user_profile results w' :
      reachable encode_text np_dot np_linalg_norm w ->
      search encode_text np_dot np_linalg_norm query top_k user_profile w
      = Some (results, w') ->
      reachable encode_text np_dot np_linalg_norm w'.

End Embedder.

(** ** [models/ranker.py] and [tools/rank_promotions.py] *)

Module Ranker.

Import PyFloat PyList.

(** A ranked entry [{"id": ..., "score": ...}]. *)
Record Ranked := mkRanked {
  r_id : string;
  r_score : float
}.

(** [PromotionRanker]: [model] is the loaded LightGBM booster, seen through
    its prediction on one feature row ([None]: the prediction raises). *)
Record PromotionRanker := mkRanker {
  model_type : string;
  model : option (list float -> option float)
}.

Definition _calculate_budget_compatibility
    (user_budget promo_price_tier : string) : float :=
  if String.eqb user_budget "low" && String.eqb promo_price_tier "low"
  then 1.0%float
  else if String.eqb user_budget "low" && String.eqb promo_price_tier "medium"
  then 0.3%float
  else if String.eqb user_budget "low" && String.eqb promo_price_tier "high"
  then 0.1%float
  else if String.eqb user_budget "medium" && String.eqb promo_price_tier "low"
  then 0.8%float
  else if String.eqb user_budget "medium"
          && String.eqb promo_price_tier "medium"
  then 1.0%float
  else if String.eqb user_budget "medium" && String.eqb promo_price_tier "high"
  then 0.6%float
  else if String.eqb user_budget "high" && String.eqb promo_price_tier "low"
  then 0.9%float
  else if String.eqb user_budget "high" && String.eqb promo_price_tier "medium"
  then 0.9%float
  else if String.eqb user_budget "high" && String.eqb promo_price_tier "high"
  then 1.0%float
  else 0.5%float.

(** [price_tier_map.get(promo_price_tier, 0.5)]. *)
Definition price_tier_map (tier : string) : float :=
  if String.eqb tier "low" then 0.0%float
  else if String.eqb tier "medium" then 0.5%float
  else if String.eqb tier "high" then 1.0%float
  else 0.5%float.

(** [user_type_map.get(t, 0.0)]. *)
Definition user_type_map (t : string) : float :=
  if String.eqb t "casual" then 0.0%float
  else if String.eqb t "professional" then 0.5%float
  else if String.eqb t "enterprise" then 1.0%float
  else 0.0%float.

Definition _extract_features (promotion : Promotion)
    (user_profile : UserProfile) : list float :=
  let base_ctr := get (p_base_ctr promotion) 0.1%float in
  let user_interests : gset string :=
    list_to_set (get (interests user_profile) []) in
  let promo_categories : gset string :=
    list_to_set (get (p_categories promotion) []) in
  let interest_match :=
    (of_nat (size (user_interests ∩ promo_categories))
     / of_nat (Nat.max (size user_interests) 1))%float in
  let user_budget := get (budget_level user_profile) "medium" in
  let promo_price_tier := get (p_price_tier promotion) "medium" in
  let budget_compat :=
    _calculate_budget_compatibility user_budget promo_price_tier in
  let category_diversity :=
    (of_nat (length (get (p_categories promotion) [])) / 10.0)%float in
  let price_tier_numeric := price_tier_map promo_price_tier in
  let user_type_numeric :=
    user_type_map (get (user_type user_profile) "casual") in
  [base_ctr; interest_match; budget_compat; category_diversity;
   price_tier_numeric; user_type_numeric].

Definition weights : list float :=
  [0.4; 0.3; 0.2; 0.05; 0.03; 0.02]%float.

(** The default score of the tool's fallback. *)
Definition default_score : float := 0.1%float.

(** [candidate.get("id", f"promo_{i}")]. *)
Definition candidate_id (i : nat) (candidate : Promotion) : string :=
  get (p_id candidate) ("promo_" +:+ pretty i).

Definition score_lt (a b : Ranked) : bool :=
  PrimFloat.ltb (r_score a) (r_score b).

Section Model.

(** numpy's dot product of a feature row with the weights, and the [i]-th
    draw of [np.random.normal(0, 0.02, n)] after seeding with the hash of the
    feature matrix. *)
Variable np_dot : list float -> list float -> float.
Variable noise : list (list float) -> nat -> float.

Definition _mock_predict (features : list (list float)) : list float :=
  let scores := map (fun row => np_dot row weights) features in
  let scores :=
    map (fun '(i, s) => (s + noise features i)%float) (enumerate scores) in
  map (fun s => np_clip s 0.01%float 0.5%float) scores.

(** The entries of [rank_promotions] before sorting. *)
Definition entries (candidates : list Promotion) (scores : list float)
    : list Ranked :=
  map (fun '(i, (candidate, score)) =>
         mkRanked (candidate_id i candidate) score)
      (enumerate (zip candidates scores)).

(** [rank_promotions]; [None] is a raised exception. *)
Definition rank_promotions (self : PromotionRanker)
    (candidates : list Promotion) (user_profile : UserProfile)
    : option (list Ranked) :=
  match candidates with
  | [] => Some []
  | _ :: _ =>
    let features :=
      map (fun candidate => _extract_features candidate user_profile)
          candidates in
    scores ← match String.eqb (model_type self) "lightgbm", model self with
             | true, Some predict => mapM predict features
             | _, _ => Some (_mock_predict features)
             end;
    Some (sort_reverse score_lt (entries candidates scores))
  end.

(** [rank_promotions_tool]: on an exception, every candidate with the default
    score, in input order. *)
Definition rank_promotions_tool (ranker : PromotionRanker)
    (candidates : list Promotion) (user_profile : UserProfile)
    : list Ranked :=
  match candidates with
  | [] => []
  | _ :: _ =>
    match rank_promotions ranker candidates user_profile with
    | Some ranked_promotions => ranked_promotions
    | None =>
      map (fun '(i, candidate) => mkRanked (candidate_id i candidate)
                                           default_score)
          (enumerate candidates)
    end
  end.

End Model.

End Ranker.

(** ** [tools/optimize_ad_slots.py]: placement *)

Module AdSlots.

Import PyList.

Definition nl : string := String "010"%char "".

Definition tech_keywords : list string :=
  ["cloud"; "server"; "hosting"; "aws"; "api"; "database"; "software"].
Definition mobile_keywords : list string :=
  ["phone"; "mobile"; "smartphone"; "android"; "ios"].
Definition business_keywords : list string :=
  ["business"; "enterprise"; "professional"; "office"; "productivity"].

(** [set(keywords) & cluster] is non-empty. *)
Definition meets (keywords cluster : list string) : bool :=
  existsb (fun k => bool_decide (k ∈ cluster)) keywords.

Definition _generate_contextual_intro (keywords : list string) : string :=
  match keywords with
  | [] => "Looking for great deals?"
  | k0 :: _ =>
    if meets keywords tech_keywords then "Perfect for your tech needs!"
    else if meets keywords mobile_keywords then "Great mobile deals for you!"
    else if meets keywords business_keywords
    then "Boost your business with these offers!"
    else "Related to " +:+ k0 +:+ " - check this out!"
  end.

(** A slot of the plan: an organic result or an inserted ad. *)
Inductive Slot :=
  | Organic (text : string)
  | Sponsored (ad_copy : string).

Definition slot_text (s : Slot) : string :=
  match s with
  | Organic text => text
  | Sponsored ad_copy => ad_copy
  end.

Definition is_sponsored (s : Slot) : bool :=
  match s with
  | Organic _ => false
  | Sponsored _ => true
  end.

Definition _calculate_insertion_positions (num_results num_ads : nat)
    : list nat :=
  if Nat.eqb num_ads 0 || Nat.ltb num_results 2 then []
  else
    let positions :=
      (if Nat.leb num_results 5 then
         (if Nat.leb 1 num_ads then [2] else [])
         ++ (if Nat.leb 2 num_ads && Nat.leb 4 num_results then [4] else [])
       else
         [2]
         ++ (if Nat.leb 2 num_ads then [5] else [])
         ++ (if Nat.leb 3 num_ads && Nat.leb 9 num_results then [8] else [])
      )%list in
    let positions := filter (fun pos => pos < num_results) positions in
    take num_ads positions.

Section Placement.

(** The keyword extraction of the ad copy: a regular expression over the
    lower-cased context window and a frequency count. *)
Variable _extract_context_keywords : list string -> nat -> list string.

Definition _generate_ad_copy (promotion : Promotion)
    (search_results : list string) (current_position : nat) : string :=
  let title := get (p_title promotion) "Special Offer" in
  let description := get (p_description promotion) "" in
  let link := get (p_link promotion) "#" in
  let context_keywords :=
    _extract_context_keywords search_results current_position in
  let contextual_intro := _generate_contextual_intro context_keywords in
  "ðŸŽ¯ [SPONSORED] " +:+ contextual_intro +:+ nl +:+ nl
  +:+ "**" +:+ title +:+ "**" +:+ nl
  +:+ description +:+ nl +:+ nl
  +:+ "ðŸ‘‰ Learn more: " +:+ link +:+ nl +:+ nl
  +:+ "---".

(** The body of the loop of [_optimize_insertion_strategy], on the pair
    [(injected_results, promotion_index)]. *)
Definition insertion_step (search_results : list string)
    (insertion_positions : list nat) (selected_promotions : list Promotion)
    (st : list string * nat) (ir : nat * string) : list string * nat :=
  let '(injected_results, promotion_index) := st in
  let '(i, result) := ir in
  let injected_results := injected_results ++ [result] in
  if bool_decide (i + 1 ∈ insertion_positions)
     && Nat.ltb promotion_index (length selected_promotions)
  then match selected_promotions !! promotion_index with
       | Some promotion =>
         let ad_copy := _generate_ad_copy promotion search_results i in
         (injected_results ++ [ad_copy], promotion_index + 1)
       | None => (injected_results, promotion_index)
       end
  else (injected_results, promotion_index).

Definition _optimize_insertion_strategy (search_results : list string)
    (promotions : list Promotion) : list string :=
  if Nat.ltb (length search_results) 2 then search_results
  else
    let max_ads :=
      Nat.min (length promotions)
              (Nat.min 3 (length search_results / 3)) in
    if Nat.eqb max_ads 0 then search_results
    else
      let selected_promotions := take max_ads promotions in
      let insertion_positions :=
        _calculate_insertion_positions (length search_results) max_ads in
      fst (fold_left
             (insertion_step search_results insertion_positions
                             selected_promotions)
             (enumerate search_results) ([], 0)).

Definition optimize_ad_slots_tool (search_results : list string)
    (promotions : list Promotion) : list string :=
  match search_results, promotions with
  | [], _ => []
  | _ :: _, [] => search_results
  | _ :: _, _ :: _ => _optimize_insertion_strategy search_results promotions
  end.

(** The same loop with every emitted item tagged by its origin. *)
Definition tagged_step (search_results : list string)
    (insertion_positions : list nat) (selected_promotions : list Promotion)
    (st : list Slot * nat) (ir : nat * string) : list Slot * nat :=
  let '(plan, promotion_index) := st in
  let '(i, result) := ir in
  let plan := plan ++ [Organic result] in
  if bool_decide (i + 1 ∈ insertion_positions)
     && Nat.ltb promotion_index (length selected_promotions)
  then match selected_promotions !! promotion_index with
       | Some promotion =>
         let ad_copy := _generate_ad_copy promotion search_results i in
         (plan ++ [Sponsored ad_copy], promotion_index + 1)
       | None => (plan, promotion_index)
       end
  else (plan, promotion_index).

Definition slot_plan (search_results : list string)
    (promotions : list Promotion) : list Slot :=
  if Nat.ltb (length search_results) 2 then map Organic search_results
  else
    let max_ads :=
      Nat.min (length promotions)
              (Nat.min 3 (length search_results / 3)) in
    if Nat.eqb max_ads 0 then map Organic search_results
    else
      let selected_promotions := take max_ads promotions in
      let insertion_positions :=
        _calculate_insertion_positions (length search_results) max_ads in
      fst (fold_left
             (tagged_step search_results insertion_positions
                          selected_promotions)
             (enumerate search_results) ([], 0)).

(** The plan of the tool: empty inputs pass through untagged. *)
Definition tool_plan (search_results : list string)
    (promotions : list Promotion) : list Slot :=
  match search_results, promotions with
  | [], _ => []
  | _ :: _, [] => map Organic search_results
  | _ :: _, _ :: _ => slot_plan search_results promotions
  end.

(** The number of sponsored slots of a plan. *)
Definition sponsored_count (plan : list Slot) : nat :=
  length (filter (fun s => is_sponsored s = true) plan).

End Placement.

End AdSlots.

(** ** Concrete inputs *)

Module Examples.

(** An extractor that finds no keyword. *)
Definition no_keywords : list string -> nat -> list string := fun _ _ => [].

(** The inputs of [tests/test_tools.py]. *)
Definition organic5 : list string :=
  ["Best cloud hosting providers 2024"; "How to choose web hosting";
   "Cloud computing guide"; "Server management tips";
   "Website performance optimization"].

Definition hosting_deal : Promotion :=
  mkPromotion (Some "hosting-deal") (Some "Premium Web Hosting 50% Off")
    (Some "Get reliable hosting with 99.9% uptime")
    (Some "https://example.com/hosting") None None None None.

(** The same offer listed a second time under another id. *)
Definition hosting_deal_again : Promotion :=
  mkPromotion (Some "hosting-deal-2") (Some "Premium Web Hosting 50% Off")
    (Some "Get reliable hosting with 99.9% uptime")
    (Some "https://example.com/hosting") None None None None.

Definition test_promo : Promotion :=
  mkPromotion (Some "test-promo") (Some "Test Promotion")
    (Some "Test description") (Some "https://example.com") None None None None.

Definition test_1 : Promotion :=
  mkPromotion (Some "test-1") (Some "Test Promotion 1")
    (Some "Cloud hosting service") (Some "https://example.com/1")
    (Some ["cloud"; "hosting"]) (Some "medium") (Some 0.1%float) None.

Definition test_2 : Promotion :=
  mkPromotion (Some "test-2") (Some "Test Promotion 2")
    (Some "Mobile phone deal") (Some "https://example.com/2")
    (Some ["mobile"; "phone"]) (Some "high") (Some 0.15%float) None.

Definition professional : UserProfile :=
  mkUserProfile (Some "professional") (Some ["cloud"; "hosting"])
                (Some "medium").

Definition business : UserProfile :=
  mkUserProfile (Some "business") (Some ["hosting"; "cloud"; "web"])
                (Some "medium").

(** A left-to-right dot product, a generator that draws zeros, and the
    ranker that the default configuration builds. *)
Definition seq_dot (a b : list float) : float :=
  fold_left (fun acc xy => (acc + xy.1 * xy.2)%float) (zip a b) 0%float.

Definition no_noise : list (list float) -> nat -> float := fun _ _ => 0%float.

Definition mock_ranker : Ranker.PromotionRanker := Ranker.mkRanker "mock" None.

(** An embedding provider that maps every text to the same unit vector, with
    numpy's reductions computed left to right. *)
Definition constant_encoder : string -> list float := fun _ => [1.0%float].

Definition seq_norm (a : list float) : float := PrimFloat.sqrt (seq_dot a a).

(** Three stored records, inserted in the order 0, 1, 2; the first two have
    the same title and description, hence the same embedding and the same
    score under every provider. *)
Definition three_records : Embedder.World :=
  Embedder.add_promotions [0; 1; 2]
    (Embedder.mkWorld
       (<[0 := hosting_deal]>
          (<[1 := hosting_deal_again]> (<[2 := test_1]> ∅)))
       Embedder.empty_index None).

End Examples.

(** ** Placement: the interleaving rule and views of a plan *)

Module Interleaving.

Import AdSlots.

(** The sponsorship marker that opens every ad copy. *)
Definition sponsored_marker : string := "ðŸŽ¯ [SPONSORED] ".

Definition organic_of (s : Slot) : option string :=
  match s with
  | Organic text => Some text
  | Sponsored _ => None
  end.

Definition sponsored_of (s : Slot) : option string :=
  match s with
  | Organic _ => None
  | Sponsored ad_copy => Some ad_copy
  end.

(** The interleaving rule in words: walk the organic list in order; after
    the organic item at 1-indexed position [i + 1], if that position is
    selected and promotions remain, emit the next promotion's ad and advance
    to the promotion after it. *)
Fixpoint interleave (render : Promotion -> nat -> string)
    (positions : list nat) (i : nat) (organic : list string)
    (remaining : list Promotion) : list Slot :=
  match organic with
  | [] => []
  | r :: organic' =>
    Organic r ::
    match remaining with
    | p :: remaining' =>
      if bool_decide (i + 1 ∈ positions)
      then Sponsored (render p i)
           :: interleave render positions (S i) organic' remaining'
      else interleave render positions (S i) organic' remaining
    | [] => interleave render positions (S i) organic' []
    end
  end.

End Interleaving.

(** ** [tools/search_promotions.py]: the search tool *)

Module SearchTool.

Import Embedder.

(** The response entry built from a result dictionary: five keys, each with
    its default. *)
Definition format_result (result : Promotion) : Promotion :=
  mkPromotion (Some (get (p_id result) ""))
              (Some (get (p_title result) ""))
              (Some (get (p_description result) ""))
              (Some (get (p_link result) ""))
              None None None
              (Some (get (p_score result) 0.0%float)).

Section Model.
Variable encode_text : string -> list float.
Variable np_dot : list float -> list float -> float.
Variable np_linalg_norm : list float -> float.

(** [search_promotions_tool] on the global index after its first use.
    [max_results] is [int(os.getenv("MAX_SEARCH_RESULTS", "20"))], [None]
    when the conversion raises.  Any exception gives an empty response; the
    state is then not tracked. *)
Definition search_promotions_tool (max_results : option Z) (query : string)
    (user_profile : UserProfile) (w : World)
    : list Promotion * option World :=
  match max_results with
  | None => ([], Some w)
  | Some top_k =>
    match search encode_text np_dot np_linalg_norm query top_k
                 (Some user_profile) w with
    | None => ([], None)
    | Some (results, w') =>
      match mapM (fun r => heap w' !! r) results with
      | None => ([], None)
      | Some dicts => (map format_result dicts, Some w')
      end
    end
  end.

End Model.

End SearchTool.

(** ** [tools/expand_query.py]: query expansion *)

Module ExpandQuery.

Import PyList.

(** [needle in hay] on strings. *)
Fixpoint contains (needle hay : string) : bool :=
  String.prefix needle hay
  || match hay with
     | EmptyString => false
     | String _ hay' => contains needle hay'
     end.

Definition promo_terms : list string :=
  ["deal"; "discount"; "sale"; "offer"; "promotion"; "coupon"].

Section Model.

(** [str.lower]. *)
Variable lower : string -> string.

Definition _fallback_expansion (query : string) : list string :=
  let query_lower := lower query in
  let expansions := [query] in
  let expansions :=
    expansions
    ++ map (fun term => query +:+ " " +:+ term)
           (List.filter (fun term => negb (contains term query_lower))
                        promo_terms) in
  let expansions :=
    expansions
    ++ (if existsb (fun word => contains word query_lower)
                   ["cloud"; "aws"; "server"; "hosting"]
        then [query +:+ " cloud computing";
              query +:+ " web hosting deal";
              "aws " +:+ query +:+ " discount"]
        else if existsb (fun word => contains word query_lower)
                        ["phone"; "mobile"; "smartphone"]
        then [query +:+ " smartphone deal";
              query +:+ " mobile phone offer";
              query +:+ " electronics sale"]
        else if existsb (fun word => contains word query_lower)
                        ["laptop"; "computer"; "pc"]
        then [query +:+ " computer deal";
              query +:+ " laptop discount";
              query +:+ " electronics promotion"]
        else ["best " +:+ query +:+ " deals";
              query +:+ " special offer";
              "cheap " +:+ query]) in
  take 5 expansions.

(** The two LLM back ends, seen through their reply to the prompt built from
    the query and [max_queries]; [None] is a raised exception. *)
Variable _expand_with_openai : string -> Z -> option (list string).
Variable _expand_with_anthropic : string -> Z -> option (list string).

(** [expand_query_tool]; [provider] is the lower-cased
    [DEFAULT_LLM_PROVIDER] and [max_queries] the parsed
    [MAX_EXPANDED_QUERIES]. *)
Definition expand_query_tool (provider : string)
    (OPENAI_AVAILABLE ANTHROPIC_AVAILABLE : bool) (max_queries : Z)
    (query : string) : list string :=
  let attempt :=
    if String.eqb provider "openai" && OPENAI_AVAILABLE
    then _expand_with_openai query max_queries
    else if String.eqb provider "anthropic" && ANTHROPIC_AVAILABLE
    then _expand_with_anthropic query max_queries
    else Some (_fallback_expansion query) in
  match attempt with
  | Some expanded_queries => slice_to max_queries expanded_queries
  | None => _fallback_expansion query
  end.

End Model.

End ExpandQuery.

(** ** [agents/demo_agent.py]: removing duplicate results *)

Module DemoAgent.

(** The loop of [demo_full_pipeline] that keeps the first result of each id;
    [promo["id"]] raises on a dictionary without an id ([None]). *)
Fixpoint unique_from (seen_ids : gset string) (all_promotions : list Promotion)
    : option (list Promotion) :=
  match all_promotions with
  | [] => Some []
  | promo :: rest =>
    i ← p_id promo;
    if bool_decide (i ∈ seen_ids) then unique_from seen_ids rest
    else cons promo <$> unique_from ({[i]} ∪ seen_ids) rest
  end.

Definition unique_promotions (all_promotions : list Promotion)
    : option (list Promotion) :=
  unique_from ∅ all_promotions.

(** The test of the display loop of [demo_full_pipeline] that decides
    whether an item of the placement is shown as an ad slot:
    [result.startswith(...)]. *)
Definition shown_as_ad_slot (result : string) : bool :=
  String.prefix "🎯 [SPONSORED]" result.

End DemoAgent.

(** ** More concrete inputs *)

Module Examples2.

Import Examples.

(** The organic results of [agents/demo_agent.py]. *)
Definition mock_search_results : list string :=
  ["AWS EC2 Documentation - Learn about Amazon Elastic Compute Cloud instances";
   "AWS Pricing Calculator - Calculate your cloud computing costs";
   "AWS Free Tier - Get started with AWS for free";
   "Cloud Computing Best Practices - Guide to efficient cloud usage";
   "AWS Instance Types - Choose the right instance for your workload";
   "Server Migration to AWS - Step-by-step migration guide";
   "AWS Security Best Practices - Keep your cloud infrastructure secure";
   "Cost Optimization on AWS - Reduce your cloud spending"].

Definition three_promotions : list Promotion :=
  [hosting_deal; test_1; test_2].

(** ASCII lower-casing, enough for the ASCII queries used here. *)
Definition ascii_lower (c : ascii) : ascii :=
  let n := nat_of_ascii c in
  if (65 <=? n)%nat && (n <=? 90)%nat then ascii_of_nat (n + 32) else c.

Fixpoint lower_ascii (s : string) : string :=
  match s with
  | EmptyString => EmptyString
  | String c s' => String (ascii_lower c) (lower_ascii s')
  end.




(** A booster whose prediction always raises. *)
Definition failing_ranker : Ranker.PromotionRanker :=
  Ranker.mkRanker "lightgbm" (Some (fun _ => None)).

(** [three_records] after its index was built with [constant_encoder]. *)
Definition three_records_built : Embedder.World :=
  Embedder.mkWorld
    (Embedder.heap three_records)
    (Embedder.mkIndex (Embedder.promotions (Embedder.index three_records))
                      (Some [[1.0%float]; [1.0%float]; [1.0%float]]) true)
    (Some [[1.0%float]; [1.0%float]; [1.0%float]]).

End Examples2.

(* ================================================================== *)
(** * Part II: properties *)
(* ================================================================== *)

(** ** The order of binary64 numbers *)

Module PyFloatFacts.

Import PyFloat.

Lemma key_cmp_lt a b : key_cmp a b = Lt <-> key_lt a b.
Proof.
  destruct a as [[a1 a2] a3], b as [[b1 b2] b3]; unfold key_cmp, key_lt.
  destruct (Z.compare_spec a1 b1), (Z.compare_spec a2 b2),
    (Z.compare_spec a3 b3); split; intros ?;
    first [discriminate | reflexivity | lia | exfalso; lia].
Qed.

Lemma key_cmp_eq a b : key_cmp a b = Eq <-> a = b.
Proof.
  destruct a as [[a1 a2] a3], b as [[b1 b2] b3]; unfold key_cmp. split.
  - destruct (Z.compare_spec a1 b1), (Z.compare_spec a2 b2),
      (Z.compare_spec a3 b3); intros ?; try discriminate; congruence.
  - intros [= -> -> ->]. now rewrite !Z.compare_refl.
Qed.

Lemma key_cmp_gt a b : key_cmp a b = Gt <-> key_lt b a.
Proof.
  destruct a as [[a1 a2] a3], b as [[b1 b2] b3]; unfold key_cmp, key_lt.
  destruct (Z.compare_spec a1 b1), (Z.compare_spec a2 b2),
    (Z.compare_spec a3 b3); split; intros ?;
    first [discriminate | reflexivity | lia | exfalso; lia].
Qed.

Lemma key_lt_irrefl a : ~ key_lt a a.
Proof. destruct a as [[a1 a2] a3]; unfold key_lt; lia. Qed.

Lemma key_lt_trans a b c : key_lt a b -> key_lt b c -> key_lt a c.
Proof.
  destruct a as [[a1 a2] a3], b as [[b1 b2] b3], c as [[c1 c2] c3].
  unfold key_lt; lia.
Qed.

Lemma key_lt_total a b : key_lt a b \/ a = b \/ key_lt b a.
Proof.
  destruct (key_cmp a b) eqn:E.
  - right; left; now apply key_cmp_eq.
  - left; now apply key_cmp_lt.
  - right; right; now apply key_cmp_gt.
Qed.

(** On numbers, the specification's comparison is the comparison of keys. *)
Lemma SFcompare_key x y :
  x <> S754_nan -> y <> S754_nan ->
  SFcompare x y = Some (key_cmp (sf_key x) (sf_key y)).
Proof.
  intros Hx Hy.
  destruct x as [sx|sx| |sx mx ex], y as [sy|sy| |sy my ey];
    try congruence;
    try (destruct sx); try (destruct sy); try reflexivity.
  cbn [SFcompare sf_key key_cmp]. rewrite Z.compare_opp.
    rewrite (Z.compare_antisym ex ey).
    change (-1 ?= -1)%Z with Eq. cbv iota.
    destruct (ex ?= ey)%Z; reflexivity.
Qed.

Lemma is_nan_false x : is_nan x = false <-> Prim2SF x <> S754_nan.
Proof.
  unfold is_nan. rewrite FloatAxioms.eqb_spec. unfold SFeqb. split.
  - intros H E. rewrite E in H. discriminate.
  - intros H. rewrite SFcompare_key by assumption.
    assert (key_cmp (sf_key (Prim2SF x)) (sf_key (Prim2SF x)) = Eq) as ->
      by now apply key_cmp_eq.
    reflexivity.
Qed.


Lemma ltb_true x y :
  PrimFloat.ltb x y = true <->
  is_nan x = false /\ is_nan y = false /\ key_lt (key x) (key y).
Proof.
  rewrite FloatAxioms.ltb_spec. unfold SFltb, key. rewrite !is_nan_false. split.
  - intros H.
    assert (Prim2SF x <> S754_nan) as Hx
      by (intros E; rewrite E in H; discriminate).
    assert (Prim2SF y <> S754_nan) as Hy
      by (intros E; rewrite E in H; destruct (Prim2SF x); discriminate).
    rewrite SFcompare_key in H by assumption.
    repeat split; try assumption.
    apply key_cmp_lt. destruct key_cmp; congruence.
  - intros (Hx & Hy & H). rewrite SFcompare_key by assumption.
    apply key_cmp_lt in H. now rewrite H.
Qed.

Lemma eqb_true x y :
  PrimFloat.eqb x y = true <->
  is_nan x = false /\ is_nan y = false /\ key x = key y.
Proof.
  rewrite FloatAxioms.eqb_spec. unfold SFeqb, key. rewrite !is_nan_false. split.
  - intros H.
    assert (Prim2SF x <> S754_nan) as Hx
      by (intros E; rewrite E in H; discriminate).
    assert (Prim2SF y <> S754_nan) as Hy
      by (intros E; rewrite E in H; destruct (Prim2SF x); discriminate).
    rewrite SFcompare_key in H by assumption.
    repeat split; try assumption.
    apply key_cmp_eq. destruct key_cmp; congruence.
  - intros (Hx & Hy & H). rewrite SFcompare_key by assumption.
    apply key_cmp_eq in H. now rewrite H.
Qed.

Lemma leb_true x y :
  PrimFloat.leb x y = true <->
  is_nan x = false /\ is_nan y = false /\
  (key_lt (key x) (key y) \/ key x = key y).
Proof.
  rewrite FloatAxioms.leb_spec. unfold SFleb, key. rewrite !is_nan_false. split.
  - intros H.
    assert (Prim2SF x <> S754_nan) as Hx
      by (intros E; rewrite E in H; discriminate).
    assert (Prim2SF y <> S754_nan) as Hy
      by (intros E; rewrite E in H; destruct (Prim2SF x); discriminate).
    rewrite SFcompare_key in H by assumption.
    repeat split; try assumption.
    destruct key_cmp eqn:E; try discriminate.
    + right. now apply key_cmp_eq.
    + left. now apply key_cmp_lt.
  - intros (Hx & Hy & H). rewrite SFcompare_key by assumption.
    destruct H as [H|H].
    + apply key_cmp_lt in H. now rewrite H.
    + apply key_cmp_eq in H. now rewrite H.
Qed.

(** Consequences used by the sorting and clamping arguments. *)

Lemma ltb_irrefl x : PrimFloat.ltb x x = false.
Proof.
  destruct (PrimFloat.ltb x x) eqn:E; [|reflexivity].
  apply ltb_true in E. destruct E as (_ & _ & E).
  now apply key_lt_irrefl in E.
Qed.

Lemma ltb_false x y :
  is_nan x = false -> is_nan y = false ->
  PrimFloat.ltb x y = false <-> PrimFloat.leb y x = true.
Proof.
  intros Hx Hy. rewrite leb_true. split.
  - intros H. repeat split; try assumption.
    destruct (key_lt_total (key x) (key y)) as [L|[L|L]]; auto.
    assert (PrimFloat.ltb x y = true) by (apply ltb_true; auto).
    congruence.
  - intros (_ & _ & H).
    destruct (PrimFloat.ltb x y) eqn:E; [|reflexivity].
    apply ltb_true in E. destruct E as (_ & _ & E). destruct H as [H|H].
    + exfalso. eapply key_lt_irrefl, key_lt_trans; eassumption.
    + rewrite H in E. now apply key_lt_irrefl in E.
Qed.


Lemma ltb_trans x y z :
  PrimFloat.ltb x y = true -> PrimFloat.ltb y z = true ->
  PrimFloat.ltb x z = true.
Proof.
  rewrite !ltb_true. intros (Hx & Hy & H1) (_ & Hz & H2).
  repeat split; try assumption. eapply key_lt_trans; eassumption.
Qed.


Lemma ltb_leb x y : PrimFloat.ltb x y = true -> PrimFloat.leb x y = true.
Proof. rewrite ltb_true, leb_true. intros (Hx & Hy & H). auto. Qed.



Lemma leb_refl x : is_nan x = false -> PrimFloat.leb x x = true.
Proof. intros H. apply leb_true. auto. Qed.

Lemma eqb_leb x y :
  PrimFloat.eqb x y = true <->
  PrimFloat.leb x y = true /\ PrimFloat.leb y x = true.
Proof.
  rewrite eqb_true, !leb_true. split.
  - intros (Hx & Hy & H). repeat split; auto.
  - intros ((Hx & Hy & H1) & (_ & _ & H2)). repeat split; try assumption.
    destruct H1 as [H1|H1]; [|assumption].
    destruct H2 as [H2|H2]; [|congruence].
    exfalso. eapply key_lt_irrefl, key_lt_trans; eassumption.
Qed.

Lemma leb_total x y :
  is_nan x = false -> is_nan y = false ->
  PrimFloat.leb x y = true \/ PrimFloat.leb y x = true.
Proof.
  intros Hx Hy. rewrite !leb_true.
  destruct (key_lt_total (key x) (key y)) as [L|[L|L]]; auto 10.
Qed.


(** Adding [0.0] changes nothing but the sign of a negative zero. *)
Lemma add_zero_r x : (x + 0)%float = x \/ x = (-0)%float.
Proof.
  destruct (Prim2SF x) eqn:E.
  - destruct s.
    + right. apply Prim2SF_inj. rewrite E. reflexivity.
    + left. apply Prim2SF_inj. rewrite FloatAxioms.add_spec, E. reflexivity.
  - left. apply Prim2SF_inj. rewrite FloatAxioms.add_spec, E. reflexivity.
  - left. apply Prim2SF_inj. rewrite FloatAxioms.add_spec, E. reflexivity.
  - left. apply Prim2SF_inj. rewrite FloatAxioms.add_spec, E. reflexivity.
Qed.

End PyFloatFacts.

(** ** [list.sort]: permutation, order and stability *)

Module PyListFacts.

Import PyList.

Section Sort.
Context {A : Type} (lt : A -> A -> bool).

Lemma insert_sorted_perm x l : insert_sorted lt x l ≡ₚ x :: l.
Proof.
  induction l as [|y l IH]; cbn; [reflexivity|].
  destruct (lt y x); [|reflexivity].
  rewrite IH. apply Permutation_swap.
Qed.

Lemma sort_perm l : sort lt l ≡ₚ l.
Proof.
  induction l as [|x l IH]; cbn; [reflexivity|].
  fold (sort lt l). now rewrite insert_sorted_perm, IH.
Qed.

Lemma sort_reverse_perm l : sort_reverse lt l ≡ₚ l.
Proof.
  unfold sort_reverse. now rewrite reverse_Permutation, sort_perm,
    reverse_Permutation.
Qed.

Lemma length_sort_reverse l : length (sort_reverse lt l) = length l.
Proof. apply Permutation_length, sort_reverse_perm. Qed.

(** *** Stability: a class of mutually unordered elements keeps its order *)

Section Stable.
Variable c : A -> bool.
Hypothesis c_unordered : forall x y, c x = true -> c y = true -> lt y x = false.




End Stable.

(** *** Order: on elements that [lt] orders weakly *)

Section Sorted.
Variable good : A -> Prop.
Hypothesis lt_asym :
  forall x y, good x -> good y -> lt x y = true -> lt y x = false.
Hypothesis ge_trans :
  forall x y z, good x -> good y -> good z ->
    lt y x = false -> lt z y = false -> lt z x = false.

Lemma insert_sorted_sorted x l :
  good x -> Forall good l ->
  StronglySorted (fun a b => lt b a = false) l ->
  StronglySorted (fun a b => lt b a = false) (insert_sorted lt x l).
Proof.
  intros Hx Hl Hs. induction Hs as [|y l Hs IH Hy]; cbn.
  - repeat constructor.
  - apply Forall_cons in Hl as [Hgy Hl]. destruct (lt y x) eqn:E.
    + constructor; [now apply IH|].
      rewrite (insert_sorted_perm x l). constructor; [|assumption].
      now apply lt_asym.
    + constructor; [now constructor|]. constructor; [assumption|].
      rewrite Forall_forall in *. intros z Hz.
      apply (ge_trans x y z); auto.
  Qed.

Lemma sort_sorted l :
  Forall good l -> StronglySorted (fun a b => lt b a = false) (sort lt l).
Proof.
  induction 1 as [|x l Hx Hl IH]; cbn; [constructor|].
  fold (sort lt l). apply insert_sorted_sorted; auto.
  now rewrite sort_perm.
Qed.

End Sorted.

End Sort.

Lemma StronglySorted_reverse {A} (R : relation A) l :
  StronglySorted R l -> StronglySorted (flip R) (reverse l).
Proof.
  induction 1 as [|x l Hs IH Hx]; [constructor|].
  rewrite reverse_cons. apply StronglySorted_app; repeat split.
  - intros a b Ha Hb. rewrite elem_of_reverse in Ha.
    apply list_elem_of_singleton in Hb. subst b.
    rewrite Forall_forall in Hx. unfold flip. apply Hx, Ha.
  - assumption.
  - repeat constructor.
Qed.

Lemma sort_reverse_sorted {A} (lt : A -> A -> bool) (good : A -> Prop) l :
  (forall x y, good x -> good y -> lt x y = true -> lt y x = false) ->
  (forall x y z, good x -> good y -> good z ->
     lt y x = false -> lt z y = false -> lt z x = false) ->
  Forall good l ->
  StronglySorted (fun a b => lt a b = false) (sort_reverse lt l).
Proof.
  intros Hasym Htrans Hl. unfold sort_reverse.
  apply (StronglySorted_reverse (fun a b => lt b a = false)).
  apply (sort_sorted lt good Hasym Htrans).
  now apply Forall_reverse.
Qed.

Lemma StronglySorted_take {A} (R : relation A) n l :
  StronglySorted R l -> StronglySorted R (take n l).
Proof.
  intros Hs. revert n. induction Hs as [|x l Hs IH Hx]; intros [|n]; cbn;
    try constructor; auto.
  rewrite Forall_forall in *. intros y Hy. apply Hx.
  eapply elem_of_take in Hy. destruct Hy as (i & Hi & _).
  eapply list_elem_of_lookup_2; eassumption.
Qed.

Lemma StronglySorted_slice_to {A} (R : relation A) k l :
  StronglySorted R l -> StronglySorted R (slice_to k l).
Proof.
  intros Hs. unfold slice_to.
  destruct (_ <=? _)%Z; now apply StronglySorted_take.
Qed.

Lemma length_slice_to {A} k (l : list A) :
  (0 <= k)%Z -> length (slice_to k l) = Nat.min (Z.to_nat k) (length l).
Proof.
  intros Hk. unfold slice_to. destruct (Z.leb_spec 0 k); [|lia].
  apply length_take.
Qed.

Lemma slice_to_sublist {A} k (l : list A) : slice_to k l `sublist_of` l.
Proof. unfold slice_to. destruct (_ <=? _)%Z; apply sublist_take. Qed.

Lemma length_enumerate_from {A} i (l : list A) :
  length (enumerate_from i l) = length l.
Proof. revert i. induction l; intros; cbn; auto. Qed.

End PyListFacts.

(** ** Placement: the insertion loop *)

Module AdSlotsFacts.

Import PyList PyListFacts AdSlots.

Lemma sponsored_count_app (p q : list Slot) :
  sponsored_count (p ++ q) = sponsored_count p + sponsored_count q.
Proof. unfold sponsored_count. now rewrite filter_app, length_app. Qed.

Lemma sponsored_count_organic (l : list string) :
  sponsored_count (Organic <$> l) = 0.
Proof. induction l; cbn; auto. Qed.

Lemma sponsored_count_one r : sponsored_count [Organic r] = 0.
Proof. reflexivity. Qed.

Lemma sponsored_count_two r ad : sponsored_count [Organic r; Sponsored ad] = 1.
Proof. reflexivity. Qed.

Section Loop.
Variable kw : list string -> nat -> list string.
Variable results : list string.
Variable positions : list nat.
Variable selected : list Promotion.

(** One iteration emits the organic item, then at most one ad. *)
Lemma tagged_step_cases plan pidx i r :
  tagged_step kw results positions selected (plan, pidx) (i, r)
    = (plan ++ [Organic r], pidx)
  \/ (pidx < length selected /\
      exists ad,
        tagged_step kw results positions selected (plan, pidx) (i, r)
        = (plan ++ [Organic r; Sponsored ad], pidx + 1)).
Proof.
  unfold tagged_step.
  destruct (bool_decide (i + 1 ∈ positions)); cbn [andb]; [|now left].
  destruct (Nat.ltb_spec pidx (length selected)) as [Hlt|Hge]; [|now left].
  destruct (selected !! pidx) as [promotion|] eqn:E; [|now left].
  right. split; [assumption|]. eexists. now rewrite <- app_assoc.
Qed.

(** The untagged loop computes the texts of the tagged one. *)
Lemma insertion_step_erase plan pidx ir :
  insertion_step kw results positions selected (slot_text <$> plan, pidx) ir
  = let st := tagged_step kw results positions selected (plan, pidx) ir in
    (slot_text <$> st.1, st.2).
Proof.
  destruct ir as [i r]. unfold insertion_step, tagged_step.
  destruct (bool_decide (i + 1 ∈ positions) && (pidx <? length selected)).
  - destruct (selected !! pidx); cbn; now rewrite !fmap_app.
  - cbn. now rewrite fmap_app.
Qed.

Lemma insertion_fold_erase l i plan pidx :
  fold_left (insertion_step kw results positions selected)
            (enumerate_from i l) (slot_text <$> plan, pidx)
  = let st := fold_left (tagged_step kw results positions selected)
                        (enumerate_from i l) (plan, pidx) in
    (slot_text <$> st.1, st.2).
Proof.
  revert i plan pidx.
  induction l as [|r l IH]; intros i plan pidx; cbn [fold_left enumerate_from].
  - reflexivity.
  - rewrite insertion_step_erase. cbn zeta.
    destruct (tagged_step kw results positions selected (plan, pidx) (i, r))
      as [plan1 pidx1].
    apply IH.
Qed.

(** The loop invariant: the pointer counts the ads, never passes the selected
    promotions, and every organic item is emitted before any ad it triggers. *)
Lemma tagged_fold_inv l i plan pidx :
  let st := fold_left (tagged_step kw results positions selected)
                      (enumerate_from i l) (plan, pidx) in
  pidx <= st.2
  /\ (pidx <= length selected -> st.2 <= length selected)
  /\ sponsored_count st.1 = sponsored_count plan + (st.2 - pidx)
  /\ length st.1 = length plan + length l + (st.2 - pidx)
  /\ exists rest, st.1 = plan ++ rest /\ head rest = Organic <$> head l.
Proof.
  revert i plan pidx.
  induction l as [|r l IH]; intros i plan pidx; cbn [fold_left enumerate_from].
  - cbn. unfold sponsored_count. repeat split; try lia.
    exists []. now rewrite app_nil_r.
  - destruct (tagged_step_cases plan pidx i r) as [E|(Hlt & ad & E)];
      rewrite E; clear E.
    + specialize (IH (S i) (plan ++ [Organic r]) pidx). cbn zeta in IH.
      destruct IH as (H1 & H2 & H3 & H4 & rest & H5 & _).
      rewrite sponsored_count_app, sponsored_count_one in H3.
      rewrite length_app in H4. cbn [length] in H4 |- *.
      repeat split; try lia.
      exists (Organic r :: rest). rewrite H5, <- app_assoc. now split.
    + specialize (IH (S i) (plan ++ [Organic r; Sponsored ad]) (pidx + 1)).
      cbn zeta in IH. destruct IH as (H1 & H2 & H3 & H4 & rest & H5 & _).
      rewrite sponsored_count_app, sponsored_count_two in H3.
      rewrite length_app in H4. cbn [length] in H4 |- *.
      repeat split; try lia.
      exists (Organic r :: Sponsored ad :: rest).
      rewrite H5, <- app_assoc. now split.
Qed.

End Loop.

Section Plan.
Variable kw : list string -> nat -> list string.

(** Erasing the tags of the plan gives the list the code returns. *)
Lemma slot_plan_erase results promotions :
  slot_text <$> slot_plan kw results promotions
  = _optimize_insertion_strategy kw results promotions.
Proof.
  unfold slot_plan, _optimize_insertion_strategy.
  assert (forall l : list string, slot_text <$> (Organic <$> l) = l) as Hid.
  { intros l. rewrite <- list_fmap_compose. apply list_fmap_id. }
  destruct (length results <? 2); [apply Hid|].
  destruct (Nat.min _ _ =? 0); [apply Hid|].
  unfold enumerate.
  pose proof (insertion_fold_erase kw results
    (_calculate_insertion_positions (length results)
       (Nat.min (length promotions) (Nat.min 3 (length results / 3))))
    (take (Nat.min (length promotions) (Nat.min 3 (length results / 3)))
          promotions) results 0 [] 0) as H.
  cbn [fmap list_fmap] in H. rewrite H. reflexivity.
Qed.

Lemma tool_plan_erase results promotions :
  slot_text <$> tool_plan kw results promotions
  = optimize_ad_slots_tool kw results promotions.
Proof.
  unfold tool_plan, optimize_ad_slots_tool.
  destruct results as [|r results]; [reflexivity|].
  destruct promotions as [|p promotions].
  - rewrite <- list_fmap_compose. apply list_fmap_id.
  - apply slot_plan_erase.
Qed.

(** What the plan of the strategy looks like, whatever the inputs. *)
Lemma slot_plan_shape results promotions :
  let plan := slot_plan kw results promotions in
  head plan = Organic <$> head results
  /\ sponsored_count plan
     <= Nat.min (length promotions) (Nat.min 3 (length results / 3))
  /\ length plan = length results + sponsored_count plan.
Proof.
  unfold slot_plan.
  assert (forall l : list string,
    head (Organic <$> l) = Organic <$> head l
    /\ sponsored_count (Organic <$> l)
       <= Nat.min (length promotions) (Nat.min 3 (length results / 3))
    /\ length (Organic <$> l) = length l + sponsored_count (Organic <$> l))
    as Hid.
  { intros l. rewrite sponsored_count_organic, length_fmap.
    repeat split; try lia. now destruct l. }
  destruct (length results <? 2); [apply Hid|].
  destruct (Nat.min _ _ =? 0); [apply Hid|].
  set (max_ads := Nat.min (length promotions) (Nat.min 3 (length results / 3))).
  pose proof (tagged_fold_inv kw results
    (_calculate_insertion_positions (length results) max_ads)
    (take max_ads promotions) results 0 [] 0) as H.
  cbn zeta in H. unfold enumerate.
  destruct H as (_ & H2 & H3 & H4 & rest & H5 & H6).
  rewrite length_take in H2. cbn in H3, H4, H5.
  repeat split.
  - now rewrite H5.
  - rewrite H3. specialize (H2 ltac:(lia)). lia.
  - lia.
Qed.

End Plan.

End AdSlotsFacts.

(** ** Placement: pass-through, the 5/2 scenario and the invariants *)

Module Placement.

Import PyList AdSlots AdSlotsFacts Examples.

(** C6. An empty organic list gives an empty output whatever the promotions;
    an empty promotion list gives the organic list back unchanged; an organic
    list with fewer than two items (none or one) is returned unchanged, with
    no sponsored slot. *)
Theorem placement_pass_through kw :
  (forall promotions, optimize_ad_slots_tool kw [] promotions = [])
  /\ (forall search_results,
        optimize_ad_slots_tool kw search_results [] = search_results)
  /\ (forall r promotions,
        optimize_ad_slots_tool kw [r] promotions = [r]
        /\ sponsored_count (tool_plan kw [r] promotions) = 0).
Proof.
  repeat split.
  - intros [|r l]; reflexivity.
  - destruct promotions; reflexivity.
  - destruct promotions; reflexivity.
Qed.

(** C1, as the code has it.  Five organic results and two promotions: the ad
    count is [min(2, 3, 5 // 3) = 1], so exactly one sponsored slot is
    inserted, immediately after organic position 2, it renders the first
    promotion, and the output has length 6. *)
Theorem place_5_organic_2_promotions kw r1 r2 r3 r4 r5 p1 p2 :
  let organic := [r1; r2; r3; r4; r5] in
  let ad := _generate_ad_copy kw p1 organic 1 in
  tool_plan kw organic [p1; p2]
  = [Organic r1; Organic r2; Sponsored ad; Organic r3; Organic r4; Organic r5]
  /\ optimize_ad_slots_tool kw organic [p1; p2] = [r1; r2; ad; r3; r4; r5]
  /\ sponsored_count (tool_plan kw organic [p1; p2]) = 1
  /\ length (optimize_ad_slots_tool kw organic [p1; p2]) = 6.
Proof. repeat split. Qed.

(** C1, as stated, fails on the test's five results with two promotions:
    the output does not hold two sponsored slots and seven items. *)
Lemma place_5_organic_2_promotions_not_7 :
  ~ (sponsored_count (tool_plan no_keywords organic5 [hosting_deal; test_promo])
     = 2
     /\ length (optimize_ad_slots_tool no_keywords organic5
                  [hosting_deal; test_promo]) = 7).
Proof. intros [H _]. vm_compute in H. discriminate. Qed.

(** C4. For an organic list of length [L >= 2] and a non-empty promotion
    list: the first output item is the first organic item (position 0 is
    never sponsored); the number of sponsored slots is at most
    [min(|promotions|, 3, L // 3)]; and the output has [L] plus that many
    items.  The tagged plan is the output item for item. *)
Theorem placement_invariants kw search_results promotions :
  2 <= length search_results ->
  promotions <> [] ->
  let plan := tool_plan kw search_results promotions in
  let output := optimize_ad_slots_tool kw search_results promotions in
  slot_text <$> plan = output
  /\ head plan = Organic <$> head search_results
  /\ head output = head search_results
  /\ sponsored_count plan
     <= Nat.min (length promotions) (Nat.min 3 (length search_results / 3))
  /\ length output = length search_results + sponsored_count plan.
Proof.
  intros HL Hp plan output.
  assert (slot_text <$> plan = output) as Herase by apply tool_plan_erase.
  destruct search_results as [|r0 rs]; [cbn in HL; lia|].
  destruct promotions as [|p0 ps]; [congruence|].
  destruct (slot_plan_shape kw (r0 :: rs) (p0 :: ps)) as (H1 & H2 & H3).
  change (slot_plan kw (r0 :: rs) (p0 :: ps)) with plan in H1, H2, H3.
  clearbody plan output. subst output.
  repeat split; try assumption.
  - destruct plan as [|s plan]; [discriminate|].
    cbn in H1 |- *. injection H1 as ->. reflexivity.
  - rewrite length_fmap. exact H3.
Qed.

Lemma placement_invariants_witness :
  let plan := tool_plan no_keywords organic5 [hosting_deal] in
  let output := optimize_ad_slots_tool no_keywords organic5 [hosting_deal] in
  slot_text <$> plan = output
  /\ head plan = Organic <$> head organic5
  /\ head output = head organic5
  /\ sponsored_count plan
     <= Nat.min (length [hosting_deal]) (Nat.min 3 (length organic5 / 3))
  /\ length output = length organic5 + sponsored_count plan.
Proof.
  apply (placement_invariants no_keywords organic5 [hosting_deal]).
  - vm_compute. lia.
  - discriminate.
Defined.

End Placement.

(** ** Ranking: features, the fallback scorer and the ranked list *)

Module RankerFacts.

Import PyFloat PyFloatFacts PyList PyListFacts Ranker.

(** [np.clip] of a number lands between the bounds. *)
Lemma np_clip_range x lo hi :
  PrimFloat.ltb lo hi = true ->
  is_nan (np_clip x lo hi) = false ->
  PrimFloat.leb lo (np_clip x lo hi) = true
  /\ PrimFloat.leb (np_clip x lo hi) hi = true.
Proof.
  intros Hb. pose proof Hb as Hb'. apply ltb_true in Hb' as (Hlo & Hhi & _).
  unfold np_clip, np_maximum, np_minimum.
  destruct (is_nan x) eqn:Hx.
  - rewrite Hx. congruence.
  - destruct (PrimFloat.ltb lo x) eqn:E1.
    + rewrite Hx. destruct (PrimFloat.ltb x hi) eqn:E2; intros _.
      * split; now apply ltb_leb.
      * split; [now apply ltb_leb | now apply leb_refl].
    + rewrite Hlo, Hb. intros _.
      split; [now apply leb_refl | now apply ltb_leb].
Qed.




Lemma length_mock_predict np_dot noise features :
  length (_mock_predict np_dot noise features) = length features.
Proof.
  unfold _mock_predict, enumerate.
  now rewrite !length_map, length_enumerate_from, length_map.
Qed.

Lemma mock_predict_lookup np_dot noise features i s :
  _mock_predict np_dot noise features !! i = Some s ->
  exists raw, s = np_clip raw 0.01%float 0.5%float.
Proof.
  unfold _mock_predict. intros H.
  change (map ?f ?l) with (f <$> l) in H.
  rewrite list_lookup_fmap in H.
  destruct (_ !! i) as [raw|]; [|discriminate].
  injection H as <-. now exists raw.
Qed.

(** The entries before sorting: one per candidate, in input order. *)
Lemma entries_from_spec i (candidates : list Promotion) (scores : list float) :
  length scores = length candidates ->
  let es := map (fun '(i, (candidate, score)) =>
                   mkRanked (candidate_id i candidate) score)
                (enumerate_from i (zip candidates scores)) in
  r_id <$> es
  = (fun ic => candidate_id ic.1 ic.2) <$> enumerate_from i candidates
  /\ r_score <$> es = scores.
Proof.
  revert i scores.
  induction candidates as [|c cs IH]; intros i [|s ss] Hlen;
    try discriminate; cbn; [now split|].
  destruct (IH (S i) ss) as [H1 H2]; [cbn in Hlen; lia|].
  cbn zeta in H1, H2. split; f_equal; assumption.
Qed.

Lemma entries_spec (candidates : list Promotion) (scores : list float) :
  length scores = length candidates ->
  r_id <$> entries candidates scores
  = (fun ic => candidate_id ic.1 ic.2) <$> enumerate candidates
  /\ r_score <$> entries candidates scores = scores.
Proof. apply entries_from_spec. Qed.






End RankerFacts.

Module Ranking.

Import PyFloat PyFloatFacts PyList PyListFacts Ranker RankerFacts.
Import Examples Examples2.

(** C9. The sixth feature, [user_type_numeric], is 0.0 for "casual", 0.5 for
    "professional", 1.0 for "enterprise" and 0.0 for every other value; in
    particular it is 0.0 for "business" and for a profile without a
    [user_type]. *)
Theorem user_type_numeric_values promotion u :
  exists x,
    _extract_features promotion u !! 5 = Some x
    /\ length (_extract_features promotion u) = 6
    /\ (user_type u = Some "casual" -> x = 0.0%float)
    /\ (user_type u = Some "professional" -> x = 0.5%float)
    /\ (user_type u = Some "enterprise" -> x = 1.0%float)
    /\ (user_type u = Some "business" -> x = 0.0%float)
    /\ (user_type u = None -> x = 0.0%float)
    /\ (forall t, user_type u = Some t ->
          t <> "casual" -> t <> "professional" -> t <> "enterprise" ->
          x = 0.0%float).
Proof.
  eexists. split; [reflexivity|]. split; [reflexivity|].
  repeat split; try (intros ->; reflexivity).
  intros t -> H1 H2 H3. cbn. unfold user_type_map.
  apply String.eqb_neq in H1, H2, H3. now rewrite H1, H2, H3.
Qed.

Lemma user_type_numeric_business :
  _extract_features test_1 business !! 5 = Some 0.0%float
  /\ _extract_features test_1 (mkUserProfile None None None) !! 5
     = Some 0.0%float.
Proof.
  split.
  - destruct (user_type_numeric_values test_1 business)
      as (x & Hx & _ & _ & _ & _ & Hb & _).
    rewrite Hx. f_equal. apply Hb. reflexivity.
  - destruct (user_type_numeric_values test_1 (mkUserProfile None None None))
      as (x & Hx & _ & _ & _ & _ & _ & Hn & _).
    rewrite Hx. f_equal. apply Hn. reflexivity.
Defined.








End Ranking.

(** ** The profile boost *)

Module Boost.

Import PyFloat PyFloatFacts PyList Embedder Examples.

Lemma feq_refl x : feq x x = true.
Proof. unfold feq, is_nan. now destruct (PrimFloat.eqb x x). Qed.

Lemma same_or_zeros_feq_min a b :
  same_or_zeros a b -> feq (py_min a 1) (py_min b 1) = true.
Proof. intros [->|[-> ->]]; [apply feq_refl | reflexivity]. Qed.

Lemma same_or_zeros_add_zero a b :
  same_or_zeros a b -> same_or_zeros a (b + 0)%float.
Proof.
  intros [->|[-> ->]].
  - destruct (add_zero_r b) as [->| ->]; [now left | now right].
  - now right.
Qed.

Lemma same_or_zeros_add a b c :
  (-0 + c = 0 + c)%float -> same_or_zeros a b ->
  same_or_zeros (a + c)%float (b + c)%float.
Proof. intros Hc [->|[-> ->]]; left; [reflexivity | exact Hc]. Qed.

Lemma interest_step base n :
  same_or_zeros
    (if Nat.ltb 0 n then (base + 0.1 * of_nat n)%float else base)
    (base + 0.1 * of_nat n)%float.
Proof.
  destruct n as [|n]; [|now left].
  change (0.1 * of_nat 0)%float with 0%float. cbn [Nat.ltb Nat.leb].
  destruct (add_zero_r base) as [->| ->]; [now left | now right].
Qed.

Lemma py_min_not_above a : PrimFloat.ltb 1 (py_min a 1) = false.
Proof.
  unfold py_min. destruct (PrimFloat.ltb 1 a) eqn:E; [reflexivity | exact E].
Qed.

(** C3. The boosted score is the base similarity plus 0.1 per tag shared by
    the profile's interests and the record's categories, plus the budget
    term (0.05 on equal levels, 0.02 for high/medium and medium/low, else 0),
    clamped above at 1.0: it never exceeds 1.0, and below 1.0 it is the sum
    itself, however negative.  Equality is numerical ([==], with NaN agreeing
    with NaN); absent fields read as no interests, no categories and
    "medium". *)
Theorem boost_formula_capped base promotion u :
  let n := overlap (get (interests u) []) (get (p_categories promotion) []) in
  let budget := get (budget_level u) "medium" in
  let tier := get (p_price_tier promotion) "medium" in
  let boosted := _apply_user_profile_boost base promotion u in
  feq boosted (boost_formula base n budget tier) = true
  /\ PrimFloat.ltb 1 boosted = false
  /\ (is_nan boosted = false -> PrimFloat.leb boosted 1 = true)
  /\ (PrimFloat.ltb 1 (boost_sum base n budget tier) = false ->
      feq boosted (boost_sum base n budget tier) = true).
Proof.
  intros n budget tier boosted.
  assert (feq boosted (boost_formula base n budget tier) = true) as Hformula.
  { unfold boosted, _apply_user_profile_boost, boost_formula, boost_sum,
      budget_term.
    fold n budget tier. fold (py_min (base + 0.1 * of_nat n
      + (if String.eqb budget tier then 0.05
         else if (String.eqb budget "high" && String.eqb tier "medium")
                 || (String.eqb budget "medium" && String.eqb tier "low")
         then 0.02 else 0))%float 1).
    apply same_or_zeros_feq_min.
    pose proof (interest_step base n) as H1.
    destruct (String.eqb budget tier).
    - apply same_or_zeros_add; [reflexivity | exact H1].
    - destruct ((String.eqb budget "high" && String.eqb tier "medium")
                || (String.eqb budget "medium" && String.eqb tier "low")).
      + apply same_or_zeros_add; [reflexivity | exact H1].
      + apply same_or_zeros_add_zero, H1. }
  assert (PrimFloat.ltb 1 boosted = false) as Hcap by apply py_min_not_above.
  repeat split.
  - exact Hformula.
  - exact Hcap.
  - intros Hnan. apply ltb_false; [reflexivity | exact Hnan | exact Hcap].
  - intros Hbelow. unfold boost_formula in Hformula.
    now rewrite Hbelow in Hformula.
Qed.

Lemma boost_formula_capped_witness :
  PrimFloat.leb (_apply_user_profile_boost 0.95 test_1 professional) 1 = true
  /\ feq (_apply_user_profile_boost (-0.5) test_2 professional)
         (boost_sum (-0.5) 0 "medium" "high") = true.
Proof.
  split.
  - apply (boost_formula_capped 0.95 test_1 professional). reflexivity.
  - apply (boost_formula_capped (-0.5) test_2 professional). reflexivity.
Defined.

End Boost.

(** ** The index: tuples, building, scoring and collecting *)

Module EmbedderFacts.

Import PyFloat PyFloatFacts PyList PyListFacts Embedder.

(** *** The order of [(similarity, i)] tuples *)

Lemma tuple_lt_false (a b : float * nat) :
  is_nan a.1 = false -> is_nan b.1 = false ->
  tuple_lt b a = false <->
  key_lt (key a.1) (key b.1) \/ (key a.1 = key b.1 /\ a.2 <= b.2).
Proof.
  intros Ha Hb. unfold tuple_lt.
  destruct (PrimFloat.eqb b.1 a.1) eqn:E.
  - apply eqb_true in E as (_ & _ & E). rewrite Nat.ltb_ge. split.
    + intros H. right. split; [congruence | exact H].
    + intros [H|[_ H]]; [|exact H].
      rewrite E in H. now apply key_lt_irrefl in H.
  - assert (key b.1 <> key a.1) as Hne.
    { intros K. rewrite (proj2 (eqb_true b.1 a.1)) in E; [discriminate|auto]. }
    split.
    + intros H. destruct (key_lt_total (key a.1) (key b.1)) as [L|[L|L]].
      * now left.
      * congruence.
      * rewrite (proj2 (ltb_true b.1 a.1)) in H; [discriminate|auto].
    + intros [H|[H _]]; [|congruence].
      destruct (PrimFloat.ltb b.1 a.1) eqn:L; [|reflexivity].
      apply ltb_true in L as (_ & _ & L).
      exfalso. eapply key_lt_irrefl, key_lt_trans; eassumption.
Qed.

Lemma tuple_lt_asym (x y : float * nat) :
  is_nan x.1 = false -> is_nan y.1 = false ->
  tuple_lt x y = true -> tuple_lt y x = false.
Proof.
  intros Hx Hy H. apply tuple_lt_false; try assumption.
  unfold tuple_lt in H. destruct (PrimFloat.eqb x.1 y.1) eqn:E.
  - apply eqb_true in E as (_ & _ & E). apply Nat.ltb_lt in H.
    right. split; [exact E | lia].
  - apply ltb_true in H as (_ & _ & H). now left.
Qed.

Lemma tuple_ge_trans (x y z : float * nat) :
  is_nan x.1 = false -> is_nan y.1 = false -> is_nan z.1 = false ->
  tuple_lt y x = false -> tuple_lt z y = false -> tuple_lt z x = false.
Proof.
  intros Hx Hy Hz H1 H2.
  apply tuple_lt_false in H1; try assumption.
  apply tuple_lt_false in H2; try assumption.
  apply tuple_lt_false; try assumption.
  destruct H1 as [H1|[E1 L1]], H2 as [H2|[E2 L2]].
  - left. eapply key_lt_trans; eassumption.
  - left. now rewrite <- E2.
  - left. now rewrite E1.
  - right. split; [congruence | lia].
Qed.

Lemma descending_of_tuple_lt (x y : float * nat) :
  is_nan x.1 = false -> is_nan y.1 = false -> x.2 <> y.2 ->
  tuple_lt x y = false -> descending x y.
Proof.
  intros Hx Hy Hne H. apply tuple_lt_false in H; try assumption. split.
  - destruct (PrimFloat.ltb x.1 y.1) eqn:L; [|reflexivity].
    apply ltb_true in L as (_ & _ & L). exfalso. destruct H as [H|[H _]].
    + eapply key_lt_irrefl, key_lt_trans; eassumption.
    + rewrite H in L. now apply key_lt_irrefl in L.
  - intros E. apply eqb_true in E as (_ & _ & E). destruct H as [H|[_ H]].
    + rewrite E in H. now apply key_lt_irrefl in H.
    + lia.
Qed.

Lemma StronglySorted_descending (l : list (float * nat)) :
  Forall (fun si => is_nan si.1 = false) l ->
  NoDup l.*2 ->
  StronglySorted (fun a b => tuple_lt a b = false) l ->
  StronglySorted descending l.
Proof.
  intros Hgood Hnodup Hs.
  induction Hs as [|x l Hs IH Hx]; [constructor|].
  apply Forall_cons in Hgood as [Hgx Hgood].
  rewrite fmap_cons in Hnodup. apply NoDup_cons in Hnodup as [Hnin Hnodup].
  constructor; [now apply IH|].
  rewrite Forall_forall in *. intros y Hy.
  apply descending_of_tuple_lt; auto.
  intros E. apply Hnin. rewrite E. now apply list_elem_of_fmap_2.
Qed.

(** The sorted and sliced list of [search]. *)
Lemma top_sorted (sims : list (float * nat)) top_k :
  Forall (fun si => is_nan si.1 = false) sims ->
  NoDup sims.*2 ->
  StronglySorted descending (slice_to top_k (sort_reverse tuple_lt sims)).
Proof.
  intros Hgood Hnodup.
  pose proof (slice_to_sublist top_k (sort_reverse tuple_lt sims)) as Hsub.
  pose proof (sort_reverse_perm tuple_lt sims) as Hperm.
  apply StronglySorted_descending.
  - rewrite Forall_forall in *. intros si Hsi. apply Hgood.
    rewrite <- Hperm. eapply elem_of_sublist; eassumption.
  - eapply sublist_NoDup; [|apply fmap_sublist, Hsub]. now rewrite Hperm.
  - apply StronglySorted_slice_to.
    apply (sort_reverse_sorted tuple_lt (fun si => is_nan si.1 = false)).
    + apply tuple_lt_asym.
    + apply tuple_ge_trans.
    + exact Hgood.
Qed.

(** *** Building the index *)

Section Model.
Variable encode_text : string -> list float.
Variable np_dot : list float -> list float -> float.
Variable np_linalg_norm : list float -> float.

Lemma texts_total (h : gmap nat Promotion) (ls : list nat) :
  (forall l, l ∈ ls -> is_Some (h !! l)) ->
  exists texts,
    mapM (fun l => promo_text <$> h !! l) ls = Some texts
    /\ length texts = length ls.
Proof.
  intros Hlive.
  destruct (mapM (fun l => promo_text <$> h !! l) ls) as [texts|] eqn:E.
  - exists texts. split; [reflexivity|]. apply length_mapM in E. lia.
  - apply mapM_None in E. apply Exists_exists in E as (l & Hl & E).
    destruct (Hlive l Hl) as [p Hp]. rewrite Hp in E. discriminate.
Qed.

Lemma build_index_spec w :
  (forall l, l ∈ promotions (index w) -> is_Some (heap w !! l)) ->
  index_built (index w) = false ->
  exists w1,
    build_index encode_text false w = Some w1
    /\ heap w1 = heap w
    /\ promotions (index w1) = promotions (index w)
    /\ ((promotions (index w) = [] /\ w1 = w)
        \/ (index_built (index w1) = true /\
            exists embs, embeddings (index w1) = Some embs
                         /\ length embs = length (promotions (index w)))).
Proof.
  intros Hlive Hbuilt. unfold build_index. cbn zeta. rewrite Hbuilt.
  cbn [andb negb].
  destruct (texts_total (heap w) (promotions (index w)) Hlive)
    as (texts & Htexts & Hlen).
  destruct (promotions (index w)) as [|l0 ls] eqn:Ep.
  - exists w. repeat split; [exact Ep | now left].
  - rewrite Htexts. cbn [mbind option_bind].
    assert (exists w1,
      Some (mkWorld (heap w)
              (mkIndex (l0 :: ls) (Some (encode encode_text texts)) true)
              (Some (encode encode_text texts))) = Some w1
      /\ heap w1 = heap w
      /\ promotions (index w1) = l0 :: ls
      /\ ((l0 :: ls = [] /\ w1 = w)
          \/ (index_built (index w1) = true /\
              exists embs, embeddings (index w1) = Some embs
                           /\ length embs = length (l0 :: ls)))) as Hrebuild.
    { eexists. split; [reflexivity|]. cbn. repeat split. right.
      split; [reflexivity|]. eexists. split; [reflexivity|].
      unfold encode. rewrite length_map. exact Hlen. }
    destruct (cache w) as [cached|]; [|exact Hrebuild].
    destruct (Nat.eqb_spec (length cached) (length (l0 :: ls))) as [Hc|Hc];
      cbn [andb]; [|exact Hrebuild].
    eexists. split; [reflexivity|]. cbn. repeat split. right.
    split; [reflexivity|]. eexists. split; [reflexivity|]. exact Hc.
Qed.

Lemma ensure_built_spec w :
  wf_world w ->
  exists w1,
    ensure_built encode_text w = Some w1
    /\ heap w1 = heap w
    /\ promotions (index w1) = promotions (index w)
    /\ (promotions (index w1) = []
        \/ exists embs, embeddings (index w1) = Some embs
                        /\ length embs = length (promotions (index w1)))
    /\ wf_world w1.
Proof.
  intros [Hlive Haligned]. unfold ensure_built.
  destruct (index_built (index w)) eqn:Hbuilt.
  - exists w. repeat split; auto.
  - destruct (build_index_spec w Hlive Hbuilt)
      as (w1 & E & Hheap & Hproms & Hcases).
    exists w1. rewrite E, Hproms. repeat split; try assumption.
    + destruct Hcases as [[H _]|[_ H]]; [now left | now right].
    + rewrite Hproms, Hheap. exact Hlive.
    + intros Hb. destruct Hcases as [[_ ->]|[_ H]]; [congruence|].
      rewrite Hproms. exact H.
Qed.

(** *** Scoring every record *)

Lemma score_one_total query_embedding user_profile w i e :
  (forall l, l ∈ promotions (index w) -> is_Some (heap w !! l)) ->
  i < length (promotions (index w)) ->
  exists s,
    score_one np_dot np_linalg_norm query_embedding user_profile w (i, e)
    = Some (s, i).
Proof.
  intros Hlive Hi. unfold score_one.
  destruct user_profile as [u|]; [|eauto].
  destruct (profile_truthy u); [|eauto].
  destruct (lookup_lt_is_Some_2 (promotions (index w)) i Hi) as [l Hl].
  destruct (Hlive l) as [p Hp]; [eapply list_elem_of_lookup_2, Hl|].
  rewrite Hl. cbn. rewrite Hp. cbn. eauto.
Qed.

Lemma similarities_from_total query_embedding user_profile w i embs :
  (forall l, l ∈ promotions (index w) -> is_Some (heap w !! l)) ->
  i + length embs <= length (promotions (index w)) ->
  exists sims,
    mapM (score_one np_dot np_linalg_norm query_embedding user_profile w)
         (enumerate_from i embs) = Some sims
    /\ sims.*2 = seq i (length embs).
Proof.
  intros Hlive. revert i.
  induction embs as [|e embs IH]; intros i Hi; cbn [enumerate_from].
  - exists []. now split.
  - cbn [length] in Hi.
    destruct (score_one_total query_embedding user_profile w i e Hlive)
      as [s Hs]; [lia|].
    destruct (IH (S i)) as (sims & Hsims & Hidx); [lia|].
    exists ((s, i) :: sims). split.
    + change (mapM ?f ((i, e) :: ?l))
        with (y ← f (i, e); k ← mapM f l; Some (y :: k)).
      rewrite Hs. cbn [mbind option_bind]. rewrite Hsims. reflexivity.
    + cbn. now rewrite Hidx.
Qed.

Lemma similarities_total query user_profile w embs :
  (forall l, l ∈ promotions (index w) -> is_Some (heap w !! l)) ->
  length embs <= length (promotions (index w)) ->
  exists sims,
    similarities encode_text np_dot np_linalg_norm query user_profile w embs
    = Some sims
    /\ sims.*2 = seq 0 (length embs).
Proof. intros Hlive Hlen. now apply similarities_from_total. Qed.

(** *** Collecting the results *)

Lemma slice_to_nil {A} k : slice_to k ([] : list A) = [].
Proof. unfold slice_to. destruct (_ <=? _)%Z; apply take_nil. Qed.

Lemma collect_spec top w :
  (forall l, l ∈ promotions (index w) -> is_Some (heap w !! l)) ->
  Forall (fun si : float * nat => si.2 < length (promotions (index w))) top ->
  exists results w',
    collect top w = Some (results, w')
    /\ index w' = index w
    /\ cache w' = cache w
    /\ (forall l p, heap w !! l = Some p -> heap w' !! l = Some p)
    /\ Forall2 (result_of w w') results top.
Proof.
  revert w. induction top as [|[s i] top IH]; intros w Hlive Hidx.
  - exists [], w. cbn. repeat split; auto.
  - apply Forall_cons in Hidx as [Hi Hidx]. cbn [snd] in Hi.
    destruct (lookup_lt_is_Some_2 _ i Hi) as [l Hl].
    destruct (Hlive l) as [p Hp]; [eapply list_elem_of_lookup_2, Hl|].
    pose (r := fresh (dom (heap w))).
    assert (heap w !! r = None) as Hr by apply not_elem_of_dom, is_fresh.
    pose (w1 := set_heap (<[r := set_score s p]> (heap w)) w).
    assert (forall l' p', heap w !! l' = Some p' -> heap w1 !! l' = Some p')
      as Hsub1.
    { intros l' p' H. cbn. rewrite lookup_insert_ne; [exact H|].
      intros <-. congruence. }
    destruct (IH w1) as (rs & w' & E & Hix & Hc & Hsub & Hres).
    { intros l' Hl'. destruct (Hlive l' Hl') as [p' Hp'].
      exists p'. apply Hsub1, Hp'. }
    { exact Hidx. }
    exists (r :: rs), w'. split.
    { cbn [collect]. rewrite Hl. cbn [mbind option_bind]. rewrite Hp.
      cbn [mbind option_bind]. fold r. fold w1. rewrite E. reflexivity. }
    split; [exact Hix|]. split; [exact Hc|]. split.
    { intros l' p' H. apply Hsub, Hsub1, H. }
    constructor.
    + split; [exact Hr|]. exists l, p. repeat split; try assumption.
      apply Hsub. cbn. apply lookup_insert_eq.
    + eapply Forall2_impl; [exact Hres|].
      intros r' si (Hn & l' & p' & Hl' & Hp' & Hr').
      split.
      { destruct (heap w !! r') as [q|] eqn:E'; [|reflexivity].
        apply Hsub1 in E'. congruence. }
      change (promotions (index w1)) with (promotions (index w)) in Hl'.
      destruct (Hlive l') as [p0 Hp0]; [eapply list_elem_of_lookup_2, Hl'|].
      exists l', p0. repeat split; try assumption.
      rewrite (Hsub1 _ _ Hp0) in Hp'. injection Hp' as <-. exact Hr'.
Qed.

(** *** The whole of [search] *)

Lemma search_spec query top_k user_profile w :
  wf_world w ->
  exists sims results w',
    all_scores encode_text np_dot np_linalg_norm query user_profile w
    = Some sims
    /\ search encode_text np_dot np_linalg_norm query top_k user_profile w
       = Some (results, w')
    /\ sims.*2 = seq 0 (length sims)
    /\ length sims <= length (promotions (index w))
    /\ Forall2 (result_of w w') results
               (slice_to top_k (sort_reverse tuple_lt sims))
    /\ promotions (index w') = promotions (index w)
    /\ (forall l p, heap w !! l = Some p -> heap w' !! l = Some p)
    /\ wf_world w'.
Proof.
  intros Hwf.
  destruct (ensure_built_spec w Hwf)
    as (w1 & E1 & Hheap & Hproms & Hcases & Hwf1).
  unfold all_scores, search. rewrite E1. cbn [mbind option_bind].
  destruct Hcases as [Hnil|(embs & Hembs & Hlen)].
  - rewrite Hnil. exists [], [], w1.
    change (sort_reverse tuple_lt []) with (@nil (float * nat)).
    rewrite slice_to_nil.
    repeat split; try assumption; try constructor.
    + cbn. lia.
    + intros l p. now rewrite Hheap.
    + apply Hwf1.
    + apply Hwf1.
  - destruct Hwf1 as [Hlive1 Haligned1].
    destruct (similarities_total query user_profile w1 embs Hlive1)
      as (sims & Hsims & Hidx); [lia|].
    assert (length sims = length embs) as Hlsims.
    { rewrite <- (length_fmap snd sims), Hidx. apply length_seq. }
    destruct (collect_spec (slice_to top_k (sort_reverse tuple_lt sims)) w1
                Hlive1) as (results & w' & Ec & Hix & Hc & Hsub & Hres).
    { rewrite Forall_forall. intros si Hsi.
      eapply elem_of_sublist in Hsi; [|apply slice_to_sublist].
      rewrite (sort_reverse_perm tuple_lt sims) in Hsi.
      apply (list_elem_of_fmap_2 snd) in Hsi. rewrite Hidx in Hsi.
      apply elem_of_seq in Hsi. lia. }
    exists sims, results, w'. rewrite Hembs.
    destruct (promotions (index w1)) as [|l0 ls] eqn:Ep;
      cbn [mbind option_bind].
    + cbn in Hlen. destruct embs; [|discriminate].
      destruct sims; [|discriminate]. 
      change (sort_reverse tuple_lt []) with (@nil (float * nat)) in *.
      rewrite slice_to_nil in Ec, Hres |- *.
      cbn in Ec. injection Ec as <- <-.
      repeat split; try assumption; try constructor; try (cbn; lia).
      * congruence.
      * intros l p. now rewrite Hheap.
      * rewrite Ep. exact Hlive1.
      * rewrite Ep. exact Haligned1.
    + rewrite Hsims. cbn [mbind option_bind]. rewrite Ec.
      repeat split; try assumption.
      * now rewrite Hlsims.
      * rewrite <- Hproms, Hlsims, Hlen. reflexivity.
      * eapply Forall2_impl; [exact Hres|]. intros r si. unfold result_of.
        now rewrite Hheap, Ep, <- Hproms.
      * rewrite Hix. congruence.
      * intros l p H. apply Hsub. now rewrite Hheap.
      * intros l Hl. rewrite Hix, Ep in Hl. destruct (Hlive1 l Hl) as [p Hp].
        exists p. apply Hsub, Hp.
      * rewrite Hix. intros Hb. rewrite Ep. apply Haligned1, Hb.
Qed.

End Model.

End EmbedderFacts.

(** ** Search: reachable states, order of the results, and the frame *)

Module Search.

Import PyFloat PyFloatFacts PyList PyListFacts Embedder EmbedderFacts Examples.

(** The invariant holds of a new index and every operation keeps it. *)
Lemma wf_world_initial h c : wf_world (mkWorld h empty_index c).
Proof.
  split; cbn.
  - intros l Hl. now apply elem_of_nil in Hl.
  - discriminate.
Qed.

Lemma wf_world_add_promotions new w :
  wf_world w ->
  (forall l, l ∈ new -> is_Some (heap w !! l)) ->
  wf_world (add_promotions new w).
Proof.
  intros [Hlive _] Hnew. split; cbn.
  - intros l Hl. apply elem_of_app in Hl as [Hl|Hl]; auto.
  - discriminate.
Qed.

Lemma wf_world_store w l p :
  wf_world w -> wf_world (set_heap (<[l := p]> (heap w)) w).
Proof.
  intros [Hlive Haligned]. split; cbn; [|exact Haligned].
  intros l' Hl'. destruct (decide (l = l')) as [->|Hne].
  - rewrite lookup_insert_eq. now eexists.
  - rewrite lookup_insert_ne by assumption. now apply Hlive.
Qed.

Lemma wf_world_build_index encode_text force_rebuild w w' :
  wf_world w ->
  build_index encode_text force_rebuild w = Some w' ->
  wf_world w'.
Proof.
  intros [Hlive Haligned] H. unfold build_index in H. cbn zeta in H.
  destruct (index_built (index w) && negb force_rebuild).
  { injection H as <-. now split. }
  destruct (texts_total (heap w) (promotions (index w)) Hlive)
    as (texts & Htexts & Hlen).
  destruct (promotions (index w)) as [|l0 ls] eqn:Ep.
  { injection H as <-. split; rewrite Ep; assumption. }
  rewrite Htexts in H. cbn [mbind option_bind] in H.
  assert (forall embs c,
            length embs = length (l0 :: ls) ->
            wf_world (mkWorld (heap w) (mkIndex (l0 :: ls) (Some embs) true) c))
    as Hbuilt.
  { intros embs c Hembs. split; cbn; [exact Hlive|].
    intros _. now exists embs. }
  assert (length (encode encode_text texts) = length (l0 :: ls)) as Henc.
  { unfold encode. now rewrite length_map. }
  destruct (cache w) as [cached|].
  - destruct (Nat.eqb_spec (length cached) (length (l0 :: ls))) as [Hc|Hc];
      cbn [andb] in H.
    + destruct force_rebuild; cbn [negb] in H; injection H as <-;
        now apply Hbuilt.
    + injection H as <-. now apply Hbuilt.
  - injection H as <-. now apply Hbuilt.
Qed.

(** Every state the operations produce satisfies the invariant. *)
Lemma reachable_wf_world encode_text np_dot np_linalg_norm w :
  reachable encode_text np_dot np_linalg_norm w -> wf_world w.
Proof.
  induction 1 as [h c|w l p _ IH|w new _ IH Hnew|w force w' _ IH Hb
                  |w query top_k user_profile results w' _ IH Hs].
  - apply wf_world_initial.
  - now apply wf_world_store.
  - now apply wf_world_add_promotions.
  - eapply wf_world_build_index; eassumption.
  - destruct (search_spec encode_text np_dot np_linalg_norm query top_k
                user_profile w IH)
      as (sims & results' & w'' & _ & Hs' & _ & _ & _ & _ & _ & Hwf).
    congruence.
Qed.

Lemma wf_three_records : wf_world three_records.
Proof.
  apply wf_world_add_promotions; [apply wf_world_initial|].
  intros l Hl. cbn. repeat (apply elem_of_cons in Hl as [->|Hl]).
  - now eexists.
  - now eexists.
  - now eexists.
  - now apply elem_of_nil in Hl.
Defined.

Lemma Forall2_Forall_left {A B} (P : A -> B -> Prop) (Q : A -> Prop) l k :
  Forall2 P l k -> (forall x y, P x y -> Q x) -> Forall Q l.
Proof. induction 1; intros HPQ; constructor; eauto. Qed.

(** C2, as the code has it.  From every state of the index that satisfies
    its invariant (every reachable state does, [reachable_wf_world]),
    [search] returns: it computes one score per stored
    record, sorts the [(score, index)] tuples with [reverse=True] and keeps
    [[:top_k]].  Each result is the record at the index of one of these
    tuples, each tuple used at most once, with the tuple's score.  There are
    at most [N] results, and at most [min(top_k, N)] when [top_k >= 0].
    When the scores are numbers the results are the first [top_k] tuples of
    the sorted list, in non-increasing order of score, and results of equal
    score are in descending order of index: the record inserted last comes
    first. *)
Theorem search_top_k_descending encode_text np_dot np_linalg_norm
    query top_k user_profile w :
  wf_world w ->
  exists sims results w' top,
    all_scores encode_text np_dot np_linalg_norm query user_profile w
    = Some sims
    /\ search encode_text np_dot np_linalg_norm query top_k user_profile w
       = Some (results, w')
    /\ sims.*2 = seq 0 (length sims)
    /\ Forall2 (result_of w w') results top
    /\ top ⊆+ sims
    /\ length results <= length (promotions (index w))
    /\ ((0 <= top_k)%Z ->
        length results
        <= Nat.min (Z.to_nat top_k) (length (promotions (index w))))
    /\ (Forall (fun si => is_nan si.1 = false) sims ->
        top = slice_to top_k (sort_reverse tuple_lt sims)
        /\ StronglySorted descending top).
Proof.
  intros Hwf.
  destruct (search_spec encode_text np_dot np_linalg_norm query top_k
              user_profile w Hwf)
    as (sims & results & w' & Hall & Hsearch & Hidx & Hlen & Hres & _).
  exists sims, results, w', (slice_to top_k (sort_reverse tuple_lt sims)).
  assert (length results = length (slice_to top_k (sort_reverse tuple_lt sims)))
    as Hlr by (eapply Forall2_length; eassumption).
  pose proof (sublist_length _ _
    (slice_to_sublist top_k (sort_reverse tuple_lt sims))) as Hsub.
  rewrite length_sort_reverse in Hsub.
  repeat split; try assumption.
  - rewrite <- (sort_reverse_perm tuple_lt sims) at 2.
    apply sublist_submseteq, slice_to_sublist.
  - lia.
  - intros Hk. rewrite Hlr, length_slice_to, length_sort_reverse by assumption.
    lia.
  - apply top_sorted; [assumption|].
    rewrite Hidx. apply NoDup_seq.
Qed.

Lemma search_top_k_descending_witness :
  exists results w',
    search constant_encoder seq_dot seq_norm "cloud hosting" 2
           (Some professional) three_records = Some (results, w')
    /\ length results <= 2
    /\ StronglySorted descending
         (slice_to 2 (sort_reverse tuple_lt
                        [(1%float, 0); (1%float, 1); (1%float, 2)])).
Proof.
  destruct (search_top_k_descending constant_encoder seq_dot seq_norm
              "cloud hosting" 2 (Some professional) three_records
              wf_three_records)
    as (sims & results & w' & top & Hall & Hsearch & _ & _ & _ & _ & Hlen
        & Hsorted).
  vm_compute in Hall. injection Hall as <-.
  exists results, w'. split; [exact Hsearch|]. split.
  - specialize (Hlen ltac:(lia)). cbn in Hlen. lia.
  - destruct Hsorted as [<- Hsorted]; [repeat constructor | exact Hsorted].
Defined.

(** C2, as stated, fails: three stored records with equal scores come back
    with the record inserted last first, and a negative [top_k] returns more
    than [min(top_k, N)] results. *)
Lemma search_ties_latest_first :
  (fun l => heap three_records !! l) <$> promotions (index three_records)
  = [Some hosting_deal; Some hosting_deal_again; Some test_1]
  /\ search_records constant_encoder seq_dot seq_norm "cloud hosting" 10 None
                    three_records
     = Some [set_score 1 test_1; set_score 1 hosting_deal_again;
             set_score 1 hosting_deal]
  /\ exists records,
       search_records constant_encoder seq_dot seq_norm "cloud hosting" (-1)
                      None three_records = Some records
       /\ ~ (Z.of_nat (length records) <= Z.min (-1) 3)%Z.
Proof.
  split; [vm_compute; reflexivity|]. split; [vm_compute; reflexivity|].
  eexists. split; [vm_compute; reflexivity|]. cbn. lia.
Qed.

(** C10. From every state of the index that satisfies its invariant (every
    reachable state does, [reachable_wf_world]), [search] returns and
    leaves the stored records as they were: the list
    of stored references is the same, every dictionary that existed before
    the call is unchanged (so no stored record gains a ['score'] key or has a
    field modified), and each result is a new dictionary, distinct from every
    stored one, that holds a stored record with ['score'] set. *)
Theorem search_leaves_records_unchanged encode_text np_dot np_linalg_norm
    query top_k user_profile w :
  wf_world w ->
  exists results w',
    search encode_text np_dot np_linalg_norm query top_k user_profile w
    = Some (results, w')
    /\ promotions (index w') = promotions (index w)
    /\ (forall l p, heap w !! l = Some p -> heap w' !! l = Some p)
    /\ (forall l, l ∈ promotions (index w') -> heap w' !! l = heap w !! l)
    /\ Forall (fun r =>
                 heap w !! r = None
                 /\ (r ∉ promotions (index w))
                 /\ exists l p s,
                      l ∈ promotions (index w)
                      /\ heap w !! l = Some p
                      /\ heap w' !! r = Some (set_score s p)) results.
Proof.
  intros Hwf.
  destruct (search_spec encode_text np_dot np_linalg_norm query top_k
              user_profile w Hwf)
    as (sims & results & w' & _ & Hsearch & _ & _ & Hres & Hproms & Hsub & _).
  destruct Hwf as [Hlive _].
  exists results, w'. repeat split; try assumption.
  - intros l Hl. rewrite Hproms in Hl. destruct (Hlive l Hl) as [p Hp].
    rewrite Hp. apply Hsub, Hp.
  - eapply Forall2_Forall_left; [exact Hres|].
    intros r si (Hnew & l & p & Hl & Hp & Hr). split; [exact Hnew|]. split.
    + intros Hin. destruct (Hlive r Hin) as [q Hq]. congruence.
    + exists l, p, si.1. repeat split; try assumption.
      eapply list_elem_of_lookup_2, Hl.
Qed.

Lemma search_leaves_records_unchanged_witness :
  exists results w',
    search constant_encoder seq_dot seq_norm "cloud hosting" 2
           (Some professional) three_records = Some (results, w')
    /\ (fun l => heap w' !! l) <$> promotions (index w')
       = [Some hosting_deal; Some hosting_deal_again; Some test_1].
Proof.
  destruct (search_leaves_records_unchanged constant_encoder seq_dot seq_norm
              "cloud hosting" 2 (Some professional) three_records
              wf_three_records)
    as (results & w' & Hsearch & Hproms & _ & Hsame & _).
  exists results, w'. split; [exact Hsearch|].
  rewrite Hproms in Hsame |- *.
  change (promotions (index three_records)) with [0; 1; 2] in Hsame |- *.
  cbn [fmap list_fmap].
  rewrite !Hsame by (repeat constructor). reflexivity.
Defined.

End Search.

(** ** Placement: the loop implements the interleaving rule *)

Module InterleavingFacts.

Import PyList PyListFacts AdSlots AdSlotsFacts Interleaving.

Section Loop.
Variable kw : list string -> nat -> list string.
Variable results : list string.
Variable positions : list nat.
Variable selected : list Promotion.

Lemma tagged_fold_interleave l i plan pidx :
  (fold_left (tagged_step kw results positions selected)
             (enumerate_from i l) (plan, pidx)).1
  = plan ++ interleave (fun p j => _generate_ad_copy kw p results j)
                       positions i l (drop pidx selected).
Proof.
  revert i plan pidx.
  induction l as [|r l IH]; intros i plan pidx;
    cbn [fold_left enumerate_from interleave].
  - now rewrite app_nil_r.
  - unfold tagged_step at 2.
    destruct (selected !! pidx) as [p|] eqn:E.
    + rewrite (drop_S _ _ _ E).
      assert ((pidx <? length selected) = true) as ->.
      { apply Nat.ltb_lt. eapply lookup_lt_Some, E. }
      rewrite andb_true_r. destruct (bool_decide (i + 1 ∈ positions)).
      * rewrite IH, Nat.add_1_r, <- !app_assoc. reflexivity.
      * rewrite IH, (drop_S _ _ _ E), <- app_assoc. reflexivity.
    + assert ((pidx <? length selected) = false) as ->.
      { apply Nat.ltb_ge. now apply lookup_ge_None. }
      rewrite andb_false_r, IH, <- app_assoc.
      rewrite drop_ge by now apply lookup_ge_None. reflexivity.
Qed.

End Loop.

Section Rule.
Variable render : Promotion -> nat -> string.

Lemma interleave_no_promotions positions i l :
  interleave render positions i l [] = Organic <$> l.
Proof.
  revert i. induction l as [|r l IH]; intros i; cbn; [|rewrite IH]; auto.
Qed.

Lemma interleave_no_positions i l remaining :
  interleave render [] i l remaining = Organic <$> l.
Proof.
  revert i remaining.
  induction l as [|r l IH]; intros i remaining; cbn; [reflexivity|].
  destruct remaining as [|p remaining]; [now rewrite IH|].
  rewrite bool_decide_eq_false_2 by apply not_elem_of_nil. now rewrite IH.
Qed.

(** The organic items of the plan are the organic list. *)
Lemma interleave_organic positions i l remaining :
  omap organic_of (interleave render positions i l remaining) = l.
Proof.
  revert i remaining.
  induction l as [|r l IH]; intros i remaining; cbn; [reflexivity|].
  destruct remaining as [|p remaining]; [now rewrite IH|].
  destruct (bool_decide (i + 1 ∈ positions)); cbn; now rewrite IH.
Qed.

(** The ads of the plan render a prefix of the promotions, in order. *)
Lemma interleave_sponsored positions i l remaining :
  exists k,
    k <= length remaining
    /\ Forall2 (fun ad p => exists j, ad = render p j)
               (omap sponsored_of
                     (interleave render positions i l remaining))
               (take k remaining).
Proof.
  revert i remaining.
  induction l as [|r l IH]; intros i remaining; cbn.
  - exists 0. split; [lia|]. rewrite take_0. constructor.
  - destruct remaining as [|p remaining].
    + destruct (IH (S i) []) as (k & _ & H). exists 0. split; [lia|].
      rewrite take_nil in H. now rewrite take_0.
    + destruct (bool_decide (i + 1 ∈ positions)); cbn.
      * destruct (IH (S i) remaining) as (k & Hk & H).
        exists (S k). split; [cbn; lia|]. cbn. constructor; eauto.
      * apply (IH (S i) (p :: remaining)).
Qed.

(** With the positions still ahead sorted and inside the list, and enough
    promotions left: one ad per position, the list ends with an organic item,
    and the [k]-th ad sits right after the organic item of its position. *)
Lemma interleave_spec positions i l ahead remaining :
  (forall j, i < j -> j ∈ positions <-> j ∈ ahead) ->
  StronglySorted lt ahead ->
  Forall (fun p => i < p < i + length l) ahead ->
  length ahead <= length remaining ->
  let plan := interleave render positions i l remaining in
  sponsored_count plan = length ahead
  /\ last plan = Organic <$> last l
  /\ forall k p,
       ahead !! k = Some p ->
       exists pr r,
         remaining !! k = Some pr
         /\ l !! (p - 1 - i) = Some r
         /\ plan !! (p - i + k - 1) = Some (Organic r)
         /\ plan !! (p - i + k) = Some (Sponsored (render pr (p - 1))).
Proof.
  revert i ahead remaining.
  induction l as [|r l IH]; intros i ahead remaining Hmem Hsorted Hbound Hlen.
  - destruct ahead as [|p ahead].
    + cbn. repeat split. intros k p H. now rewrite lookup_nil in H.
    + apply Forall_cons in Hbound as [Hp _]. cbn in Hp. lia.
  - cbn [interleave length] in *.
    assert (i + 1 ∈ positions <-> exists ahead', ahead = (i + 1) :: ahead')
      as Hhit.
    { rewrite Hmem by lia. split.
      - intros Hin. destruct ahead as [|p ahead]; [now apply elem_of_nil in Hin|].
        apply elem_of_cons in Hin as [->|Hin]; [eauto|].
        apply StronglySorted_inv in Hsorted as [_ Hhd].
        apply Forall_cons in Hbound as [Hp _].
        rewrite Forall_forall in Hhd. specialize (Hhd _ Hin). lia.
      - intros [ahead' ->]. apply elem_of_cons. now left. }
    destruct (decide (i + 1 ∈ positions)) as [Hin|Hnin].
    + apply Hhit in Hin as [ahead' ->].
      destruct remaining as [|pr remaining]; [cbn in Hlen; lia|].
      rewrite bool_decide_eq_true_2 by (apply Hhit; eauto).
      apply StronglySorted_inv in Hsorted as [Hsorted Hhd].
      apply Forall_cons in Hbound as [Hp0 Hbound].
      destruct (IH (S i) ahead' remaining) as (Hcount & Hlast & Hat).
      { intros j Hj. rewrite Hmem by lia. rewrite elem_of_cons. split.
        - intros [->|H]; [lia | exact H].
        - now right. }
      { exact Hsorted. }
      { rewrite Forall_forall in *. intros p Hp.
        specialize (Hhd _ Hp). specialize (Hbound _ Hp). lia. }
      { cbn in Hlen. lia. }
      cbn zeta in Hcount, Hlast, Hat. repeat split.
      * change (Organic r :: Sponsored (render pr i) :: ?t)
          with ([Organic r; Sponsored (render pr i)] ++ t).
        rewrite sponsored_count_app, sponsored_count_two, Hcount.
        reflexivity.
      * destruct l as [|r' l]; [cbn in Hp0; lia|].
        cbn [last] in Hlast |- *.
        destruct (interleave render positions (S i) (r' :: l) remaining)
          eqn:E; [discriminate E|]. exact Hlast.
      * intros [|k] p Hk; cbn in Hk.
        -- injection Hk as <-. exists pr, r.
           replace (i + 1 - 1 - i) with 0 by lia.
           replace (i + 1 - i + 0 - 1) with 0 by lia.
           replace (i + 1 - i + 0) with 1 by lia.
           replace (i + 1 - 1) with i by lia. now repeat split.
        -- destruct (Hat k p Hk) as (pr' & r' & H1 & H2 & H3 & H4).
           assert (S i < p) as Hp.
           { rewrite Forall_forall in Hhd.
             specialize (Hhd p (list_elem_of_lookup_2 _ _ _ Hk)). lia. }
           exists pr', r'. repeat split.
           ++ exact H1.
           ++ replace (p - 1 - i) with (S (p - 1 - S i)) by lia. exact H2.
           ++ replace (p - i + S k - 1) with (S (S (p - S i + k - 1))) by lia.
              exact H3.
           ++ replace (p - i + S k) with (S (S (p - S i + k))) by lia.
              exact H4.
    + rewrite bool_decide_eq_false_2 by assumption.
      assert (Forall (fun p => S i < p < S i + length l) ahead) as Hbound'.
      { rewrite Forall_forall in *. intros p Hp. specialize (Hbound _ Hp).
        assert (p <> i + 1); [|lia].
        intros ->. apply Hnin. apply Hmem; [lia | exact Hp]. }
      assert (forall j, S i < j -> j ∈ positions <-> j ∈ ahead) as Hmem'.
      { intros j Hj. apply Hmem. lia. }
      assert (interleave render positions (S i) l remaining
              = match remaining with
                | p :: _ => interleave render positions (S i) l remaining
                | [] => interleave render positions (S i) l []
                end) as Hsame by now destruct remaining.
      assert ((match remaining with
               | p :: _ => interleave render positions (S i) l remaining
               | [] => interleave render positions (S i) l []
               end)
              = interleave render positions (S i) l remaining) as ->
        by now destruct remaining.
      clear Hsame.
      destruct (IH (S i) ahead remaining Hmem' Hsorted Hbound' Hlen)
        as (Hcount & Hlast & Hat).
      cbn zeta in Hcount, Hlast, Hat. repeat split.
      * change (Organic r :: ?t) with ([Organic r] ++ t).
        now rewrite sponsored_count_app, sponsored_count_one, Hcount.
      * destruct l as [|r' l].
        -- destruct ahead as [|p ahead]; [reflexivity|].
           apply Forall_cons in Hbound' as [Hp _]. cbn in Hp. lia.
        -- cbn [last] in Hlast |- *.
           destruct (interleave render positions (S i) (r' :: l) remaining)
             eqn:E; [destruct remaining; discriminate E|]. exact Hlast.
      * intros k p Hk.
        destruct (Hat k p Hk) as (pr' & r' & H1 & H2 & H3 & H4).
        assert (S i < p) as Hp.
        { rewrite Forall_forall in Hbound'.
          specialize (Hbound' p (list_elem_of_lookup_2 _ _ _ Hk)). lia. }
        exists pr', r'. repeat split.
        -- exact H1.
        -- replace (p - 1 - i) with (S (p - 1 - S i)) by lia. exact H2.
        -- replace (p - i + k - 1) with (S (p - S i + k - 1)) by lia.
           exact H3.
        -- replace (p - i + k) with (S (p - S i + k)) by lia. exact H4.
Qed.

End Rule.

End InterleavingFacts.

(** ** Placement: where the ads go *)

Module PlacementExtra.

Import DemoAgent.

Import PyList PyListFacts AdSlots AdSlotsFacts Interleaving InterleavingFacts.
Import Examples Examples2.

(** The positions are increasing, lie strictly inside the organic list from
    position 2 on, and there are at most [num_ads] and at most three of
    them; with [num_ads <= 3] and [3 * num_ads <= num_results] there are
    exactly [num_ads]. *)
Lemma insertion_positions_spec num_results num_ads :
  let positions := _calculate_insertion_positions num_results num_ads in
  StronglySorted lt positions
  /\ Forall (fun p => 2 <= p < num_results) positions
  /\ length positions <= Nat.min num_ads 3
  /\ (num_ads <= 3 -> 3 * num_ads <= num_results ->
      length positions = num_ads).
Proof.
  unfold _calculate_insertion_positions.
  destruct (Nat.ltb_spec num_results 2) as [Hlt|Hge].
  { rewrite orb_true_r. cbn. repeat split; try constructor; lia. }
  rewrite orb_false_r.
  destruct (Nat.leb_spec num_results 5) as [H5|H5],
    (Nat.leb_spec 4 num_results) as [H4|H4],
    (Nat.leb_spec 9 num_results) as [H9|H9]; try lia;
    destruct num_ads as [|[|[|num_ads]]]; cbn [Nat.eqb Nat.leb andb app];
    rewrite ?filter_cons, ?filter_nil; repeat case_decide; try lia;
    cbn [take firstn length Nat.min]; rewrite ?take_nil;
    (split; [once (repeat constructor); lia|]);
    (split; [once (repeat constructor); lia|]);
    (split; [cbn; lia|]); intros; cbn; lia.
Qed.

Section Tool.
Variable kw : list string -> nat -> list string.

(** The tool's plan is the interleaving of the organic list with the first
    [max_ads] promotions at the calculated positions, for every input. *)
Lemma tool_plan_interleave search_results promotions :
  let max_ads :=
    Nat.min (length promotions) (Nat.min 3 (length search_results / 3)) in
  tool_plan kw search_results promotions
  = interleave (fun p j => _generate_ad_copy kw p search_results j)
      (_calculate_insertion_positions (length search_results) max_ads)
      0 search_results (take max_ads promotions).
Proof.
  cbn zeta.
  generalize (eq_refl (Nat.min (length promotions)
                         (Nat.min 3 (length search_results / 3)))).
  generalize (Nat.min (length promotions)
                (Nat.min 3 (length search_results / 3))) at 1 3 4.
  intros max_ads Hmax.
  unfold tool_plan.
  destruct search_results as [|r0 rs] eqn:Er; [reflexivity|].
  destruct promotions as [|p0 ps] eqn:Ep.
  { rewrite take_nil. now rewrite interleave_no_promotions. }
  rewrite <- Er, <- Ep in *. clear Er Ep r0 rs p0 ps.
  unfold slot_plan. rewrite <- Hmax.
  destruct (Nat.ltb_spec (length search_results) 2) as [Hlt|Hge].
  { unfold _calculate_insertion_positions.
    rewrite (proj2 (Nat.ltb_lt _ _) Hlt), orb_true_r.
    now rewrite interleave_no_positions. }
  destruct (Nat.eqb_spec max_ads 0) as [H0|Hm].
  { rewrite H0, take_0. now rewrite interleave_no_promotions. }
  unfold enumerate. rewrite tagged_fold_interleave. reflexivity.
Qed.

Lemma max_ads_bounds (search_results : list string)
    (promotions : list Promotion) :
  let max_ads :=
    Nat.min (length promotions) (Nat.min 3 (length search_results / 3)) in
  max_ads <= 3 /\ 3 * max_ads <= length search_results
  /\ max_ads <= length promotions.
Proof.
  intros max_ads.
  pose proof (Nat.Div0.mul_div_le (length search_results) 3).
  unfold max_ads. lia.
Qed.

Lemma length_omap_sponsored (plan : list Slot) :
  length (omap sponsored_of plan) = sponsored_count plan.
Proof.
  induction plan as [|[t|ad] plan IH]; [reflexivity| |].
  - change (Organic t :: plan) with ([Organic t] ++ plan).
    now rewrite sponsored_count_app.
  - change (Sponsored ad :: plan) with ([Sponsored ad] ++ plan).
    rewrite sponsored_count_app. cbn. now rewrite IH.
Qed.

(** The facts of [interleave_spec] at the tool's plan. *)
Lemma tool_plan_spec search_results promotions :
  let max_ads :=
    Nat.min (length promotions) (Nat.min 3 (length search_results / 3)) in
  let positions :=
    _calculate_insertion_positions (length search_results) max_ads in
  let plan := tool_plan kw search_results promotions in
  sponsored_count plan = max_ads
  /\ last plan = Organic <$> last search_results
  /\ forall k p,
       positions !! k = Some p ->
       exists pr r,
         promotions !! k = Some pr
         /\ search_results !! (p - 1) = Some r
         /\ plan !! (p + k - 1) = Some (Organic r)
         /\ plan !! (p + k)
            = Some (Sponsored (_generate_ad_copy kw pr search_results (p - 1))).
Proof.
  intros max_ads positions plan.
  destruct (max_ads_bounds search_results promotions) as (H3 & Hdiv & Hp).
  fold max_ads in H3, Hdiv, Hp.
  destruct (insertion_positions_spec (length search_results) max_ads)
    as (Hsorted & Hrange & _ & Hlen).
  fold positions in Hsorted, Hrange, Hlen. specialize (Hlen H3 Hdiv).
  destruct (interleave_spec
              (fun p j => _generate_ad_copy kw p search_results j)
              positions 0 search_results positions (take max_ads promotions))
    as (Hcount & Hlast & Hat).
  { reflexivity. }
  { exact Hsorted. }
  { eapply Forall_impl; [exact Hrange|]. intros p Hp'. cbn in Hp'. lia. }
  { rewrite length_take. lia. }
  unfold plan. rewrite tool_plan_interleave. fold max_ads positions.
  cbn zeta in Hcount, Hlast, Hat. repeat split.
  - now rewrite Hcount.
  - exact Hlast.
  - intros k p Hk. destruct (Hat k p Hk) as (pr & r & H1 & H2 & H4 & H5).
    apply lookup_take_Some in H1 as [H1 _].
    rewrite Nat.sub_0_r in H2, H4, H5. eauto 10.
Qed.

End Tool.

Lemma length_plan_split (plan : list Slot) :
  length plan = length (omap organic_of plan) + sponsored_count plan.
Proof.
  induction plan as [|[t|ad] plan IH]; [reflexivity| |].
  - change (Organic t :: plan) with ([Organic t] ++ plan).
    rewrite sponsored_count_app, sponsored_count_one. cbn. now rewrite IH.
  - change (Sponsored ad :: plan) with ([Sponsored ad] ++ plan).
    rewrite sponsored_count_app.
    change (sponsored_count [Sponsored ad]) with 1. cbn. rewrite IH. lia.
Qed.

Lemma tool_plan_organic kw search_results promotions :
  omap organic_of (tool_plan kw search_results promotions) = search_results.
Proof. rewrite tool_plan_interleave. apply interleave_organic. Qed.

Lemma tool_plan_sponsored kw search_results promotions :
  let max_ads :=
    Nat.min (length promotions) (Nat.min 3 (length search_results / 3)) in
  Forall2 (fun ad p =>
             exists j, ad = _generate_ad_copy kw p search_results j)
          (omap sponsored_of (tool_plan kw search_results promotions))
          (take max_ads promotions).
Proof.
  intros max_ads.
  destruct (tool_plan_spec kw search_results promotions) as (Hcount & _).
  fold max_ads in Hcount. rewrite <- length_omap_sponsored in Hcount.
  rewrite tool_plan_interleave in Hcount |- *. fold max_ads in Hcount |- *.
  destruct (interleave_sponsored
              (fun p j => _generate_ad_copy kw p search_results j)
              (_calculate_insertion_positions (length search_results) max_ads)
              0 search_results (take max_ads promotions))
    as (k & Hk & Hads).
  pose proof (Forall2_length _ _ _ Hads) as Hlen.
  rewrite Hcount, length_take in Hlen. rewrite length_take in Hk.
  destruct (max_ads_bounds search_results promotions) as (_ & _ & Hp).
  fold max_ads in Hp.
  assert (k = max_ads) as -> by lia.
  rewrite take_take, Nat.min_id in Hads. exact Hads.
Qed.

(** X1. The insertion positions are strictly increasing, each lies
    from 2 up to but excluding the number of organic results (so no ad goes
    before the second organic item or after the last one), and there are at
    most [num_ads] and never more than three of them. *)
Theorem insertion_positions_increasing_in_range num_results num_ads :
  let positions := _calculate_insertion_positions num_results num_ads in
  StronglySorted lt positions
  /\ Forall (fun p => 2 <= p < num_results) positions
  /\ length positions <= Nat.min num_ads 3.
Proof.
  destruct (insertion_positions_spec num_results num_ads)
    as (H1 & H2 & H3 & _).
  auto.
Qed.

(** X2. Placement never drops, duplicates or reorders an organic result:
    removing the sponsored slots from the output leaves exactly the organic
    list. *)
Theorem placement_keeps_organic_order kw search_results promotions :
  let plan := tool_plan kw search_results promotions in
  slot_text <$> plan = optimize_ad_slots_tool kw search_results promotions
  /\ omap organic_of plan = search_results.
Proof. split; [apply tool_plan_erase | apply tool_plan_organic]. Qed.

(** X3. For every input the number of ads inserted is exactly
    [min(len(promotions), 3, len(search_results) // 3)], and the output has
    that many items more than the organic list. *)
Theorem placement_ad_count_exact kw search_results promotions :
  let max_ads :=
    Nat.min (length promotions) (Nat.min 3 (length search_results / 3)) in
  sponsored_count (tool_plan kw search_results promotions) = max_ads
  /\ length (optimize_ad_slots_tool kw search_results promotions)
     = length search_results + max_ads.
Proof.
  intros max_ads.
  destruct (tool_plan_spec kw search_results promotions) as (Hcount & _).
  fold max_ads in Hcount. split; [exact Hcount|].
  rewrite <- tool_plan_erase, length_fmap, length_plan_split.
  now rewrite tool_plan_organic, Hcount.
Qed.

(** X4. Promotions are consumed strictly in input order: the ads of the
    output, in order, render the first [max_ads] promotions, one each. *)
Theorem placement_ads_render_first_promotions kw search_results promotions :
  let max_ads :=
    Nat.min (length promotions) (Nat.min 3 (length search_results / 3)) in
  Forall2 (fun ad p =>
             exists j, ad = _generate_ad_copy kw p search_results j)
          (omap sponsored_of (tool_plan kw search_results promotions))
          (take max_ads promotions).
Proof. apply tool_plan_sponsored. Qed.

(** X5. Each selected position gets its ad: the [k]-th position [p] puts
    the [k]-th promotion's ad, rendered in the context of organic index
    [p - 1], immediately after the organic result number [p], at output
    index [p + k]. *)
Theorem placement_ad_follows_its_position kw search_results promotions k p :
  let max_ads :=
    Nat.min (length promotions) (Nat.min 3 (length search_results / 3)) in
  let output := optimize_ad_slots_tool kw search_results promotions in
  _calculate_insertion_positions (length search_results) max_ads !! k
  = Some p ->
  exists pr r,
    promotions !! k = Some pr
    /\ search_results !! (p - 1) = Some r
    /\ output !! (p + k - 1) = Some r
    /\ output !! (p + k)
       = Some (_generate_ad_copy kw pr search_results (p - 1))
    /\ tool_plan kw search_results promotions !! (p + k)
       = Some (Sponsored (_generate_ad_copy kw pr search_results (p - 1))).
Proof.
  intros max_ads output Hk.
  destruct (tool_plan_spec kw search_results promotions) as (_ & _ & Hat).
  destruct (Hat k p Hk) as (pr & r & H1 & H2 & H3 & H4).
  exists pr, r. unfold output. rewrite <- tool_plan_erase.
  rewrite !list_lookup_fmap, H3, H4. repeat split; assumption.
Qed.

Lemma placement_ad_follows_its_position_witness :
  exists pr r,
    three_promotions !! 1 = Some pr
    /\ mock_search_results !! 4 = Some r
    /\ optimize_ad_slots_tool no_keywords mock_search_results
         three_promotions !! 5 = Some r
    /\ optimize_ad_slots_tool no_keywords mock_search_results
         three_promotions !! 6
       = Some (_generate_ad_copy no_keywords pr mock_search_results 4).
Proof.
  destruct (placement_ad_follows_its_position no_keywords
              mock_search_results three_promotions 1 5)
    as (pr & r & H1 & H2 & H3 & H4 & _).
  - reflexivity.
  - exists pr, r. repeat split; assumption.
Defined.

(** X6. The output never ends with an ad: its last item is the last
    organic result. *)
Theorem placement_ends_with_organic kw search_results promotions :
  last (optimize_ad_slots_tool kw search_results promotions)
  = last search_results.
Proof.
  destruct (tool_plan_spec kw search_results promotions) as (_ & Hlast & _).
  rewrite <- tool_plan_erase, fmap_last, Hlast.
  now destruct (last search_results).
Qed.

Lemma prefix_app (s t : string) : String.prefix s (s +:+ t) = true.
Proof.
  induction s as [|a s IH].
  - change ("" +:+ t) with t. now destruct t.
  - change (String a s +:+ t) with (String a (s +:+ t)).
    cbn [String.prefix]. destruct (ascii_dec a a); [exact IH | contradiction].
Qed.

(** X7. No inserted ad is recognised by the demo agent's display loop.
    The ad template opens with the eight bytes of a mis-encoded emoji, not
    with the four-byte emoji that the loop tests with [startswith]; so no ad
    of the output passes that test, and every item of the output that the
    demo shows as an ad slot is an organic result. *)
Theorem placement_ads_not_shown_as_ad_slots kw search_results promotions :
  let plan := tool_plan kw search_results promotions in
  slot_text <$> plan = optimize_ad_slots_tool kw search_results promotions
  /\ Forall (fun ad => shown_as_ad_slot ad = false) (omap sponsored_of plan)
  /\ Forall (fun slot =>
               shown_as_ad_slot (slot_text slot) = true ->
               is_sponsored slot = false) plan.
Proof.
  intros plan.
  assert (Forall (fun ad => shown_as_ad_slot ad = false)
                 (omap sponsored_of plan)) as Hads.
  { pose proof (tool_plan_sponsored kw search_results promotions) as H.
    cbn zeta in H.
    eapply Forall2_Forall_l; [exact H|].
    apply Forall_forall. intros pr _ ad [j ->]. reflexivity. }
  split; [apply tool_plan_erase|]. split; [exact Hads|].
  apply Forall_forall. intros [text|ad] Hin Hshown; [reflexivity|].
  rewrite Forall_forall in Hads. rewrite Hads in Hshown; [discriminate|].
  apply list_elem_of_omap. exists (Sponsored ad). now split.
Qed.

End PlacementExtra.

(** ** Search: empty inputs, counts, caps and the effect on the index *)

Module SearchExtra.

Import PyFloat PyFloatFacts PyList PyListFacts Embedder EmbedderFacts.
Import Examples Examples2.

Section Model.
Variable encode_text : string -> list float.
Variable np_dot : list float -> list float -> float.
Variable np_linalg_norm : list float -> float.

(** The result loop only allocates: fresh, pairwise distinct references,
    the index and the cache untouched, every existing dictionary kept. *)
Lemma collect_effect top w results w' :
  collect top w = Some (results, w') ->
  NoDup results
  /\ Forall (fun r => heap w !! r = None) results
  /\ index w' = index w
  /\ cache w' = cache w
  /\ (forall l p, heap w !! l = Some p -> heap w' !! l = Some p).
Proof.
  revert w results w'.
  induction top as [|[s i] top IH]; intros w results w' H; cbn in H.
  - injection H as <- <-. repeat split; auto; constructor.
  - destruct (promotions (index w) !! i) as [l|]; [|discriminate].
    cbn in H. destruct (heap w !! l) as [p|] eqn:Hp; [|discriminate].
    cbn in H.
    destruct (collect top
                (set_heap (<[fresh (dom (heap w)) := set_score s p]> (heap w))
                          w)) as [[rs w2]|] eqn:E; [|discriminate].
    cbn in H. injection H as <- <-.
    destruct (IH _ _ _ E) as (Hnd & Hfresh & Hix & Hc & Hsub).
    cbn in Hfresh, Hix, Hc, Hsub.
    assert (heap w !! fresh (dom (heap w)) = None) as Hr
      by apply not_elem_of_dom, is_fresh.
    rewrite Forall_forall in Hfresh. repeat split.
    + constructor; [|exact Hnd]. intros Hin. specialize (Hfresh _ Hin).
      rewrite lookup_insert_eq in Hfresh. discriminate.
    + constructor; [exact Hr|]. apply Forall_forall. intros r Hin.
      specialize (Hfresh _ Hin).
      apply lookup_insert_None in Hfresh as [Hfresh _]. exact Hfresh.
    + exact Hix.
    + exact Hc.
    + intros l' p' Hl'. apply Hsub. rewrite lookup_insert_ne; [exact Hl'|].
      intros <-. congruence.
Qed.

(** Every result of the loop is a dictionary of the final heap that has a
    score. *)
Lemma collect_scored top w results w' :
  collect top w = Some (results, w') ->
  Forall (fun r => exists d, heap w' !! r = Some d /\ is_Some (p_score d))
         results.
Proof.
  revert w results w'.
  induction top as [|[s i] top IH]; intros w results w' H; cbn in H.
  - injection H as <- <-. constructor.
  - destruct (promotions (index w) !! i) as [l|]; [|discriminate].
    cbn in H. destruct (heap w !! l) as [p|] eqn:Hp; [|discriminate].
    cbn in H.
    destruct (collect top
                (set_heap (<[fresh (dom (heap w)) := set_score s p]> (heap w))
                          w)) as [[rs w2]|] eqn:E; [|discriminate].
    cbn in H. injection H as <- <-.
    constructor; [|exact (IH _ _ _ E)].
    destruct (collect_effect _ _ _ _ E) as (_ & _ & _ & _ & Hsub).
    exists (set_score s p). split; [|cbn; eauto].
    apply Hsub. cbn. apply lookup_insert_eq.
Qed.

Lemma search_results_scored query top_k user_profile w results w' :
  search encode_text np_dot np_linalg_norm query top_k user_profile w
  = Some (results, w') ->
  Forall (fun r => exists d, heap w' !! r = Some d /\ is_Some (p_score d))
         results.
Proof.
  unfold search. intros H.
  destruct (ensure_built encode_text w) as [w1|]; [|discriminate].
  cbn [mbind option_bind] in H.
  destruct (promotions (index w1));
    [injection H as <- <-; constructor|].
  destruct (embeddings (index w1));
    [|injection H as <- <-; constructor].
  destruct (similarities encode_text np_dot np_linalg_norm query
              user_profile w1 l0) as [sims|]; [|discriminate].
  cbn [mbind option_bind] in H. eapply collect_scored, H.
Qed.

Lemma all_scores_length query user_profile w sims :
  wf_world w ->
  all_scores encode_text np_dot np_linalg_norm query user_profile w
  = Some sims ->
  length sims = length (promotions (index w)).
Proof.
  intros Hwf H.
  destruct (ensure_built_spec encode_text w Hwf)
    as (w1 & E1 & Hheap & Hproms & Hcases & [Hlive1 _]).
  unfold all_scores in H. rewrite E1 in H. cbn [mbind option_bind] in H.
  rewrite <- Hproms.
  destruct Hcases as [Hnil|(embs & Hembs & Hlen)].
  - rewrite Hnil in H |- *. now injection H as <-.
  - rewrite Hembs in H.
    destruct (promotions (index w1)) as [|l0 ls] eqn:Ep.
    + now injection H as <-.
    + destruct (similarities_total encode_text np_dot np_linalg_norm query
                  user_profile w1 embs) as (sims' & Hs & Hidx).
      { now rewrite Ep. }
      { rewrite Ep. lia. }
      rewrite Hs in H. injection H as <-.
      rewrite <- (length_fmap snd sims'), Hidx, length_seq. exact Hlen.
Qed.

Lemma score_one_empty_profile query_embedding u w ie :
  profile_truthy u = false ->
  score_one np_dot np_linalg_norm query_embedding (Some u) w ie
  = score_one np_dot np_linalg_norm query_embedding None w ie.
Proof. intros H. destruct ie as [i e]. unfold score_one. now rewrite H. Qed.

Lemma similarities_capped query u w embs sims :
  profile_truthy u = true ->
  similarities encode_text np_dot np_linalg_norm query (Some u) w embs
  = Some sims ->
  Forall (fun si => PrimFloat.ltb 1 si.1 = false) sims.
Proof.
  intros Hu H. unfold similarities in H. apply mapM_Some_1 in H.
  eapply Forall2_Forall_r; [exact H|].
  apply Forall_forall. intros [i e] _ si Hsi.
  unfold score_one in Hsi. rewrite Hu in Hsi.
  destruct (promotions (index w) !! i) as [l|]; [|discriminate].
  cbn in Hsi. destruct (heap w !! l) as [p|]; [|discriminate].
  cbn in Hsi. injection Hsi as <-. apply Boost.py_min_not_above.
Qed.

Lemma all_scores_capped query u w sims :
  profile_truthy u = true ->
  all_scores encode_text np_dot np_linalg_norm query (Some u) w = Some sims ->
  Forall (fun si => PrimFloat.ltb 1 si.1 = false) sims.
Proof.
  intros Hu H. unfold all_scores in H.
  destruct (ensure_built encode_text w) as [w1|]; [|discriminate].
  cbn [mbind option_bind] in H.
  destruct (promotions (index w1)) as [|l0 ls];
    [injection H as <-; constructor|].
  destruct (embeddings (index w1)) as [embs|];
    [|injection H as <-; constructor].
  eapply similarities_capped; eassumption.
Qed.

(** Building a non-empty index that is not built, or forcing a rebuild. *)
Lemma build_index_rebuilt force_rebuild w :
  (forall l, l ∈ promotions (index w) -> is_Some (heap w !! l)) ->
  promotions (index w) <> [] ->
  index_built (index w) = false \/ force_rebuild = true ->
  exists texts embs,
    mapM (fun l => promo_text <$> heap w !! l) (promotions (index w))
    = Some texts
    /\ build_index encode_text force_rebuild w
       = Some (mkWorld (heap w) (mkIndex (promotions (index w)) (Some embs) true)
                       (Some embs))
    /\ length embs = length (promotions (index w))
    /\ embs = match cache w with
              | Some cached =>
                if Nat.eqb (length cached) (length (promotions (index w)))
                   && negb force_rebuild
                then cached else encode encode_text texts
              | None => encode encode_text texts
              end.
Proof.
  intros Hlive Hne Hwhy.
  destruct (texts_total (heap w) (promotions (index w)) Hlive)
    as (texts & Htexts & Hlen).
  exists texts. unfold build_index. cbn zeta.
  assert (index_built (index w) && negb force_rebuild = false) as ->.
  { destruct Hwhy as [-> | ->]; [reflexivity | apply andb_false_r]. }
  rewrite Htexts. cbn [mbind option_bind].
  assert (length (encode encode_text texts) = length (promotions (index w)))
    as Henc by (unfold encode; now rewrite length_map).
  destruct (promotions (index w)) as [|l0 ls] eqn:Ep; [congruence|].
  destruct (cache w) as [cached|] eqn:Ec.
  - destruct (Nat.eqb_spec (length cached) (length (l0 :: ls))) as [Hc|Hc];
      destruct force_rebuild; cbn [andb negb]; eexists; eauto.
  - eexists; eauto.
Qed.

End Model.

(** X8. On an index without records [search] returns the empty list, raises
    nothing and changes nothing: no build, no cache write, no allocation. *)
Theorem search_empty_index encode_text np_dot np_linalg_norm
    query top_k user_profile w :
  promotions (index w) = [] ->
  search encode_text np_dot np_linalg_norm query top_k user_profile w
  = Some ([], w).
Proof.
  intros Hnil. unfold search, ensure_built, build_index. cbn zeta.
  rewrite Hnil.
  destruct (index_built (index w)); cbn; now rewrite Hnil.
Qed.

Lemma search_empty_index_witness :
  search constant_encoder seq_dot seq_norm "cloud hosting" 10
         (Some professional) (mkWorld ∅ empty_index None)
  = Some ([], mkWorld ∅ empty_index None).
Proof. apply search_empty_index. reflexivity. Defined.

(** X9. [search] returns pairwise distinct new dictionaries, no stored
    record twice, exactly [min(top_k, N)] of them when [top_k >= 0], and
    when [top_k >= N] every stored record exactly once. *)
Theorem search_returns_each_record_once encode_text np_dot np_linalg_norm
    query top_k user_profile w :
  wf_world w ->
  exists results w' top,
    search encode_text np_dot np_linalg_norm query top_k user_profile w
    = Some (results, w')
    /\ Forall2 (result_of w w') results top
    /\ NoDup results
    /\ NoDup top.*2
    /\ ((0 <= top_k)%Z ->
        length results
        = Nat.min (Z.to_nat top_k) (length (promotions (index w))))
    /\ ((Z.of_nat (length (promotions (index w))) <= top_k)%Z ->
        top.*2 ≡ₚ seq 0 (length (promotions (index w)))).
Proof.
  intros Hwf.
  destruct (search_spec encode_text np_dot np_linalg_norm query top_k
              user_profile w Hwf)
    as (sims & results & w' & Hall & Hsearch & Hidx & _ & Hres & _).
  pose proof (all_scores_length encode_text np_dot np_linalg_norm _ _ _ _
                Hwf Hall) as Hlen.
  exists results, w', (slice_to top_k (sort_reverse tuple_lt sims)).
  assert (NoDup results) as Hnd.
  { unfold search in Hsearch.
    destruct (ensure_built encode_text w) as [w1|]; [|discriminate].
    cbn [mbind option_bind] in Hsearch.
    destruct (promotions (index w1));
      [injection Hsearch as <- <-; constructor|].
    destruct (embeddings (index w1));
      [|injection Hsearch as <- <-; constructor].
    destruct (similarities encode_text np_dot np_linalg_norm query
                user_profile w1 l0) as [sims'|]; [|discriminate].
    cbn [mbind option_bind] in Hsearch.
    now apply collect_effect in Hsearch as [H _]. }
  repeat split; try assumption.
  - eapply sublist_NoDup; [|apply fmap_sublist, slice_to_sublist].
    rewrite (sort_reverse_perm tuple_lt sims), Hidx. apply NoDup_seq.
  - intros Hk. rewrite (Forall2_length _ _ _ Hres), length_slice_to by lia.
    now rewrite length_sort_reverse, Hlen.
  - intros Hk. unfold slice_to.
    destruct (Z.leb_spec 0 top_k); [|lia].
    rewrite take_ge by (rewrite length_sort_reverse; lia).
    now rewrite (sort_reverse_perm tuple_lt sims), Hidx, Hlen.
Qed.

Lemma search_returns_each_record_once_witness :
  exists results w',
    search constant_encoder seq_dot seq_norm "cloud hosting" 2
           (Some professional) three_records = Some (results, w')
    /\ length results = 2 /\ NoDup results.
Proof.
  destruct (search_returns_each_record_once constant_encoder seq_dot seq_norm
              "cloud hosting" 2 (Some professional) three_records
              Search.wf_three_records)
    as (results & w' & top & Hs & _ & Hnd & _ & Hlen & _).
  exists results, w'. split; [exact Hs|]. split; [|exact Hnd].
  rewrite Hlen by lia. reflexivity.
Defined.

(** X10. A profile that is an empty dictionary counts as no profile at all:
    no boost is applied, not even the one for a default "medium" budget. *)
Theorem search_empty_profile_is_no_profile encode_text np_dot np_linalg_norm
    query top_k u w :
  profile_truthy u = false ->
  search encode_text np_dot np_linalg_norm query top_k (Some u) w
  = search encode_text np_dot np_linalg_norm query top_k None w.
Proof.
  intros Hu. unfold search.
  destruct (ensure_built encode_text w) as [w1|]; [|reflexivity].
  cbn [mbind option_bind].
  destruct (promotions (index w1)); [reflexivity|].
  destruct (embeddings (index w1)); [|reflexivity].
  unfold similarities.
  rewrite (mapM_ext _ (score_one np_dot np_linalg_norm (encode_text query)
                                 None w1)); [reflexivity|].
  intros ie. now apply score_one_empty_profile.
Qed.

Lemma search_empty_profile_is_no_profile_witness :
  search_records constant_encoder seq_dot seq_norm "cloud hosting" 10
                 (Some (mkUserProfile None None None)) three_records
  = Some [set_score 1 test_1; set_score 1 hosting_deal_again;
          set_score 1 hosting_deal].
Proof.
  unfold search_records.
  rewrite (search_empty_profile_is_no_profile constant_encoder seq_dot
             seq_norm "cloud hosting" 10 (mkUserProfile None None None)
             three_records) by reflexivity.
  vm_compute. reflexivity.
Defined.

(** X11. With a non-empty profile no returned score exceeds 1.0: every
    result carries a score, and that score is not above 1.0. *)
Theorem search_scores_never_exceed_one encode_text np_dot np_linalg_norm
    query top_k u w :
  wf_world w ->
  profile_truthy u = true ->
  exists results w',
    search encode_text np_dot np_linalg_norm query top_k (Some u) w
    = Some (results, w')
    /\ Forall (fun r =>
                 exists p s,
                   heap w' !! r = Some p
                   /\ p_score p = Some s
                   /\ PrimFloat.ltb 1 s = false) results.
Proof.
  intros Hwf Hu.
  destruct (search_spec encode_text np_dot np_linalg_norm query top_k
              (Some u) w Hwf)
    as (sims & results & w' & Hall & Hsearch & _ & _ & Hres & _).
  exists results, w'. split; [exact Hsearch|].
  pose proof (all_scores_capped encode_text np_dot np_linalg_norm _ _ _ _
                Hu Hall) as Hcap.
  eapply Forall2_Forall_l; [exact Hres|].
  apply Forall_forall. intros si Hsi r (_ & l & p & _ & _ & Hr).
  exists (set_score si.1 p), si.1. repeat split; [exact Hr|].
  rewrite Forall_forall in Hcap. apply Hcap.
  rewrite <- (sort_reverse_perm tuple_lt sims).
  eapply elem_of_sublist; [exact Hsi | apply slice_to_sublist].
Qed.

Lemma search_scores_never_exceed_one_witness :
  exists results w',
    search constant_encoder seq_dot seq_norm "cloud hosting" 2
           (Some professional) three_records = Some (results, w')
    /\ Forall (fun r =>
                 exists p s,
                   heap w' !! r = Some p
                   /\ p_score p = Some s
                   /\ PrimFloat.ltb 1 s = false) results.
Proof.
  apply (search_scores_never_exceed_one constant_encoder seq_dot seq_norm
           "cloud hosting" 2 professional three_records
           Search.wf_three_records).
  reflexivity.
Defined.

(** X12. A search on an index that is already built only allocates its
    results: the index (records, embeddings, built flag) and the cache are
    the same afterwards, and every dictionary that existed is unchanged. *)
Theorem search_on_built_index_only_allocates encode_text np_dot
    np_linalg_norm query top_k user_profile w results w' :
  index_built (index w) = true ->
  search encode_text np_dot np_linalg_norm query top_k user_profile w
  = Some (results, w') ->
  index w' = index w
  /\ cache w' = cache w
  /\ (forall l p, heap w !! l = Some p -> heap w' !! l = Some p).
Proof.
  intros Hbuilt H. unfold search, ensure_built in H. rewrite Hbuilt in H.
  cbn [mbind option_bind] in H.
  destruct (promotions (index w)); [now injection H as <- <-|].
  destruct (embeddings (index w)); [|now injection H as <- <-].
  destruct (similarities encode_text np_dot np_linalg_norm query
              user_profile w l0) as [sims|]; [|discriminate].
  cbn [mbind option_bind] in H.
  apply collect_effect in H as (_ & _ & Hix & Hc & Hsub). auto.
Qed.

Lemma search_on_built_index_only_allocates_witness :
  exists results w',
    search constant_encoder seq_dot seq_norm "cloud hosting" 2
           (Some professional) three_records_built = Some (results, w')
    /\ index w' = index three_records_built
    /\ cache w' = cache three_records_built.
Proof.
  destruct (search constant_encoder seq_dot seq_norm "cloud hosting" 2
                   (Some professional) three_records_built)
    as [[results w']|] eqn:Hs.
  - exists results, w'. split; [reflexivity|].
    destruct (search_on_built_index_only_allocates constant_encoder seq_dot
                seq_norm "cloud hosting" 2 (Some professional)
                three_records_built results w' eq_refl Hs) as (Hi & Hc & _).
    split; assumption.
  - vm_compute in Hs. discriminate.
Defined.

(** X13. Building a non-empty index that is not built, or forcing a
    rebuild, succeeds and leaves the index built with one embedding per
    record and the cache holding those same embeddings.  They are the cached
    rows, whatever the records say, exactly when the cache has as many rows
    as there are records and the rebuild is not forced; otherwise they
    encode [title + " " + description] of each record in order. *)
Theorem build_index_cache_policy encode_text force_rebuild w :
  (forall l, l ∈ promotions (index w) -> is_Some (heap w !! l)) ->
  promotions (index w) <> [] ->
  index_built (index w) = false \/ force_rebuild = true ->
  exists texts embs,
    mapM (fun l => promo_text <$> heap w !! l) (promotions (index w))
    = Some texts
    /\ build_index encode_text force_rebuild w
       = Some (mkWorld (heap w) (mkIndex (promotions (index w)) (Some embs) true)
                       (Some embs))
    /\ length embs = length (promotions (index w))
    /\ embs = match cache w with
              | Some cached =>
                if Nat.eqb (length cached) (length (promotions (index w)))
                   && negb force_rebuild
                then cached else encode encode_text texts
              | None => encode encode_text texts
              end.
Proof. apply build_index_rebuilt. Qed.

Lemma build_index_cache_policy_witness :
  exists w',
    build_index constant_encoder false three_records = Some w'
    /\ embeddings (index w') = Some [[1%float]; [1%float]; [1%float]]
    /\ cache w' = embeddings (index w').
Proof.
  destruct (build_index_cache_policy constant_encoder false three_records)
    as (texts & embs & Ht & Hb & _ & He).
  - apply Search.wf_three_records.
  - discriminate.
  - now left.
  - vm_compute in Ht. injection Ht as <-. vm_compute in He. subst embs.
    eexists. split; [exact Hb|]. split; reflexivity.
Defined.

End SearchExtra.

(** ** Ranking: the compatibility table, the two scoring paths, and what the
    ranker sees of a search response *)

Module RankingExtra.

Import PyFloat PyFloatFacts PyList PyListFacts Ranker RankerFacts.
Import SearchTool Examples Examples2.

Ltac float_differs H :=
  apply (f_equal (fun x => PrimFloat.eqb x 1)) in H; vm_compute in H;
  discriminate H.

Lemma known_level (s : string) :
  s ∈ ["low"; "medium"; "high"] <-> s = "low" \/ s = "medium" \/ s = "high".
Proof. rewrite !elem_of_cons, elem_of_nil. tauto. Qed.

(** X14. The budget compatibility of any two strings lies in [0.1, 1.0]; it
    is 1.0 exactly when both are the same known level, and 0.5 as soon as
    one of them is not "low", "medium" or "high". *)
Theorem budget_compatibility_range user_budget promo_price_tier :
  let c := _calculate_budget_compatibility user_budget promo_price_tier in
  PrimFloat.leb 0.1 c = true
  /\ PrimFloat.leb c 1 = true
  /\ (c = 1.0%float <->
      user_budget = promo_price_tier
      /\ user_budget ∈ ["low"; "medium"; "high"])
  /\ (user_budget ∉ ["low"; "medium"; "high"]
      \/ promo_price_tier ∉ ["low"; "medium"; "high"] ->
      c = 0.5%float).
Proof.
  unfold _calculate_budget_compatibility.
  destruct (String.eqb_spec user_budget "low") as [Hb1|Hb1];
    destruct (String.eqb_spec user_budget "medium") as [Hb2|Hb2];
    destruct (String.eqb_spec user_budget "high") as [Hb3|Hb3];
    destruct (String.eqb_spec promo_price_tier "low") as [Ht1|Ht1];
    destruct (String.eqb_spec promo_price_tier "medium") as [Ht2|Ht2];
    destruct (String.eqb_spec promo_price_tier "high") as [Ht3|Ht3];
    cbn [andb]; cbv zeta; rewrite !known_level;
    (split; [reflexivity|]); (split; [reflexivity|]);
    try (exfalso; congruence);
    (split; [split; [intros H | intros [H Hin]] | intros [H|H]]);
    try reflexivity; try (float_differs H); intuition congruence.
Qed.

Lemma budget_compatibility_range_witness :
  _calculate_budget_compatibility "premium" "low" = 0.5%float
  /\ _calculate_budget_compatibility "high" "high" = 1.0%float.
Proof.
  split.
  - destruct (budget_compatibility_range "premium" "low")
      as (_ & _ & _ & Hother).
    apply Hother. left. rewrite known_level. intuition discriminate.
  - destruct (budget_compatibility_range "high" "high")
      as (_ & _ & Hdiag & _).
    apply Hdiag. split; [reflexivity|]. rewrite known_level. auto.
Defined.

(** X15. When the booster is not used (the model type is not "lightgbm", or
    no model is loaded) every score the tool returns that is a number lies
    in [0.01, 0.5]. *)
Theorem mock_ranked_scores_in_range np_dot noise ranker candidates u e :
  model_type ranker <> "lightgbm" \/ model ranker = None ->
  e ∈ rank_promotions_tool np_dot noise ranker candidates u ->
  is_nan (r_score e) = false ->
  PrimFloat.leb 0.01 (r_score e) = true
  /\ PrimFloat.leb (r_score e) 0.5 = true.
Proof.
  intros Hmodel He Hnan.
  destruct candidates as [|c cs]; [now apply elem_of_nil in He|].
  unfold rank_promotions_tool, rank_promotions in He.
  set (candidates := c :: cs) in *.
  set (features := map (fun candidate => _extract_features candidate u)
                       candidates) in *.
  assert (e ∈ entries candidates (_mock_predict np_dot noise features))
    as Hin.
  { destruct Hmodel as [Hty|Hnone].
    - apply String.eqb_neq in Hty. rewrite Hty in He.
      cbn [mbind option_bind] in He.
      now rewrite (sort_reverse_perm score_lt) in He.
    - rewrite Hnone in He.
      destruct (String.eqb (model_type ranker) "lightgbm");
        cbn [mbind option_bind] in He;
        now rewrite (sort_reverse_perm score_lt) in He. }
  destruct (entries_spec candidates (_mock_predict np_dot noise features))
    as [_ Hscores].
  { rewrite length_mock_predict. apply length_map. }
  apply (list_elem_of_fmap_2 r_score) in Hin. rewrite Hscores in Hin.
  apply list_elem_of_lookup in Hin as [i Hi].
  apply mock_predict_lookup in Hi as [raw Hraw].
  rewrite Hraw in *. now apply np_clip_range.
Qed.

Lemma mock_ranked_scores_in_range_witness :
  Forall (fun e => PrimFloat.leb 0.01 (r_score e) = true
                   /\ PrimFloat.leb (r_score e) 0.5 = true)
         (rank_promotions_tool seq_dot no_noise mock_ranker [test_1; test_2]
                               professional).
Proof.
  apply Forall_forall. intros e He.
  apply (mock_ranked_scores_in_range seq_dot no_noise mock_ranker
           [test_1; test_2] professional e).
  - right. reflexivity.
  - exact He.
  - revert e He. apply Forall_forall. vm_compute. repeat constructor.
Defined.

(** X16. When the booster is used and its prediction raises on the features
    of some candidate, [rank_promotions] raises and the tool answers with
    every candidate in input order, each with the score 0.1; nothing is
    sorted and no candidate is dropped. *)
Theorem tool_defaults_when_prediction_raises np_dot noise ranker predict
    candidates u c :
  model_type ranker = "lightgbm" ->
  model ranker = Some predict ->
  c ∈ candidates ->
  predict (_extract_features c u) = None ->
  rank_promotions np_dot noise ranker candidates u = None
  /\ rank_promotions_tool np_dot noise ranker candidates u
     = map (fun '(i, candidate) =>
              mkRanked (candidate_id i candidate) 0.1%float)
           (enumerate candidates).
Proof.
  intros Hty Hmodel Hc Hraise.
  assert (rank_promotions np_dot noise ranker candidates u = None) as Hnone.
  { unfold rank_promotions.
    destruct candidates as [|c0 cs]; [now apply elem_of_nil in Hc|].
    rewrite Hty, Hmodel. cbn [String.eqb].
    change ("lightgbm" =? "lightgbm")%string with true. cbv iota.
    destruct (mapM predict _) as [scores|] eqn:E; [|reflexivity].
    exfalso.
    assert (is_Some (mapM predict
              (map (fun candidate => _extract_features candidate u)
                   (c0 :: cs)))) as Hsome by (rewrite E; eauto).
    rewrite mapM_is_Some, Forall_forall in Hsome.
    destruct (Hsome (_extract_features c u)) as [s Hs].
    - change (map ?f ?l) with (f <$> l).
      now apply (list_elem_of_fmap_2
                   (fun candidate => _extract_features candidate u)).
    - unfold compose in Hs. congruence. }
  split; [exact Hnone|].
  unfold rank_promotions_tool. rewrite Hnone.
  destruct candidates; [now apply elem_of_nil in Hc | reflexivity].
Qed.

Lemma tool_defaults_when_prediction_raises_witness :
  rank_promotions_tool seq_dot no_noise failing_ranker [test_1; test_2]
                       professional
  = [mkRanked "test-1" 0.1%float; mkRanked "test-2" 0.1%float].
Proof.
  destruct (tool_defaults_when_prediction_raises seq_dot no_noise
              failing_ranker (fun _ => None) [test_1; test_2] professional
              test_1) as [_ H].
  - reflexivity.
  - reflexivity.
  - apply list_elem_of_here.
  - reflexivity.
  - rewrite H. reflexivity.
Defined.

(** X17. The ranker sees nothing of a record that went through the search
    tool: whatever was stored and searched, the features of every entry of a
    search response are those of an empty dictionary, so all candidates of
    one response get the same feature row. *)
Theorem search_response_features_are_constant encode_text np_dot
    np_linalg_norm max_results query user_profile w u :
  Forall (fun r =>
            _extract_features r u
            = _extract_features
                (mkPromotion None None None None None None None None) u)
         (search_promotions_tool encode_text np_dot np_linalg_norm
            max_results query user_profile w).1.
Proof.
  unfold search_promotions_tool.
  destruct max_results as [top_k|]; [|constructor].
  destruct (Embedder.search _ _ _ _ _ _ _) as [[results w']|]; [|constructor].
  destruct (mapM _ results) as [dicts|]; [|constructor].
  cbn [fst]. change (map ?f ?l) with (f <$> l).
  apply Forall_fmap, Forall_forall. intros d _. reflexivity.
Qed.

End RankingExtra.

(** ** The search tool and the removal of duplicates in the demo agent *)

Module PipelineExtra.

Import PyList PyListFacts Embedder EmbedderFacts SearchTool DemoAgent.
Import Examples Examples2.

Lemma Forall2_and_Forall_l {A B} (P : A -> B -> Prop) (Q : A -> Prop) l k :
  Forall2 P l k -> Forall Q l -> Forall2 (fun a b => P a b /\ Q a) l k.
Proof.
  induction 1 as [|a b l k Hab Hlk IH]; [constructor|].
  intros HQ. apply Forall_cons in HQ as [Ha Hl]. constructor; auto.
Qed.

Lemma unique_from_is_Some seen l :
  is_Some (unique_from seen l) <-> Forall (fun p => is_Some (p_id p)) l.
Proof.
  revert seen. induction l as [|p l IH]; intros seen; cbn [unique_from].
  - split; [constructor | eauto].
  - rewrite Forall_cons. destruct (p_id p) as [i|]; cbn [mbind option_bind].
    + case_bool_decide.
      * rewrite IH. split; [split; eauto | tauto].
      * rewrite fmap_is_Some, IH. split; [split; eauto | tauto].
    + split; [intros [? ?]; discriminate | intros [[? ?] _]; discriminate].
Qed.

Lemma unique_from_spec seen l out :
  unique_from seen l = Some out ->
  out `sublist_of` l
  /\ NoDup (p_id <$> out)
  /\ (forall q, q ∈ out -> exists i, p_id q = Some i /\ i ∉ seen)
  /\ (forall p, p ∈ l ->
        exists i, p_id p = Some i
                  /\ (i ∈ seen \/ exists q, q ∈ out /\ p_id q = Some i))
  /\ (forall l1 p l2 i,
        l = l1 ++ p :: l2 -> p_id p = Some i -> i ∉ seen ->
        Some i ∉ p_id <$> l1 -> p ∈ out).
Proof.
  revert seen out. induction l as [|p l IH]; intros seen out H;
    cbn [unique_from] in H.
  - injection H as <-. repeat split.
    + constructor.
    + constructor.
    + intros q Hq. now apply elem_of_nil in Hq.
    + intros q Hq. now apply elem_of_nil in Hq.
    + intros [|? ?] ? ? ? ?; discriminate.
  - destruct (p_id p) as [i|] eqn:Hi; [|discriminate].
    cbn [mbind option_bind] in H. case_bool_decide as Hseen.
    + destruct (IH _ _ H) as (Hsub & Hnd & Hout & Hcov & Hfirst).
      repeat split; [now apply sublist_cons | assumption | assumption | |].
      * intros q Hq. apply elem_of_cons in Hq as [->|Hq]; [|now apply Hcov].
        exists i. split; [assumption | now left].
      * intros [|p0 l1] p' l2 i' Hl Hp' Hns Hnot; cbn in Hl;
          injection Hl as ? ?; subst.
        -- congruence.
        -- apply (Hfirst l1 p' l2 i'); auto.
           intros Hin. apply Hnot. cbn. now apply elem_of_cons; right.
    + destruct (unique_from ({[i]} ∪ seen) l) as [out'|] eqn:E;
        [|discriminate].
      injection H as <-.
      destruct (IH _ _ E) as (Hsub & Hnd & Hout & Hcov & Hfirst).
      repeat split.
      * now apply sublist_skip.
      * cbn. apply NoDup_cons. split; [|assumption].
        intros Hin. apply list_elem_of_fmap in Hin as (q & Hq & Hqin).
        destruct (Hout q Hqin) as (j & Hj & Hns).
        apply Hns. rewrite <- Hq, Hi in Hj. injection Hj as <-.
        apply elem_of_union_l, elem_of_singleton. reflexivity.
      * intros q Hq. apply elem_of_cons in Hq as [->|Hq].
        -- exists i. now split.
        -- destruct (Hout q Hq) as (j & Hj & Hns). exists j.
           split; [assumption|]. intros Hjs. apply Hns.
           now apply elem_of_union_r.
      * intros q Hq. apply elem_of_cons in Hq as [->|Hq].
        -- exists i. split; [assumption|]. right. exists p.
           split; [apply list_elem_of_here | assumption].
        -- destruct (Hcov q Hq) as (j & Hj & [Hjs|(q' & Hq' & Hjq)]).
           ++ exists j. split; [assumption|].
              apply elem_of_union in Hjs as [Hji|Hjs]; [|now left].
              apply elem_of_singleton in Hji. subst j. right. exists p.
              split; [apply list_elem_of_here | assumption].
           ++ exists j. split; [assumption|]. right. exists q'.
              split; [now apply elem_of_cons; right | assumption].
      * intros [|p0 l1] p' l2 i' Hl Hp' Hns Hnot; cbn in Hl;
          injection Hl as ? ?; subst.
        -- apply list_elem_of_here.
        -- apply elem_of_cons; right. apply (Hfirst l1 p' l2 i'); auto.
           ++ intros Hin. apply elem_of_union in Hin as [Hin|Hin];
                [|contradiction].
              apply elem_of_singleton in Hin. subst i'. apply Hnot. cbn.
              rewrite <- Hi. apply list_elem_of_here.
           ++ intros Hin. apply Hnot. cbn. now apply elem_of_cons; right.
Qed.

Lemma unique_from_fixed seen out :
  NoDup (p_id <$> out) ->
  (forall q, q ∈ out -> exists i, p_id q = Some i /\ i ∉ seen) ->
  unique_from seen out = Some out.
Proof.
  revert seen. induction out as [|q out IH]; intros seen Hnd Hout;
    [reflexivity|].
  cbn [unique_from]. destruct (Hout q) as (i & Hi & Hns);
    [apply list_elem_of_here|].
  rewrite Hi. cbn [mbind option_bind].
  rewrite bool_decide_eq_false_2 by assumption.
  cbn in Hnd. apply NoDup_cons in Hnd as [Hq Hnd].
  rewrite IH; [reflexivity | assumption |].
  intros q' Hq'. destruct (Hout q') as (j & Hj & Hjs);
    [now apply elem_of_cons; right|].
  exists j. split; [assumption|].
  intros Hin. apply elem_of_union in Hin as [Hin|Hin]; [|contradiction].
  apply elem_of_singleton in Hin. subst j. apply Hq.
  rewrite Hi, <- Hj. now apply list_elem_of_fmap_2.
Qed.

(** X18. The answer of the search tool follows from the outcome of
    [search] alone.  When [search] raises, the answer is the empty list.
    When [search] returns, the answer has one entry per result, in the same
    order; each entry has exactly the keys id, title, description, link and
    score (categories, price tier and base click-through rate are dropped),
    and its score is the score [search] wrote, never the default 0.0. *)
Theorem search_tool_formats_what_search_returns encode_text np_dot
    np_linalg_norm top_k query user_profile w :
  match search encode_text np_dot np_linalg_norm query top_k
               (Some user_profile) w with
  | None =>
    search_promotions_tool encode_text np_dot np_linalg_norm (Some top_k)
      query user_profile w
    = ([], None)
  | Some (results, w') =>
    exists dicts,
      Forall2 (fun r d => heap w' !! r = Some d /\ is_Some (p_score d))
              results dicts
      /\ search_promotions_tool encode_text np_dot np_linalg_norm (Some top_k)
           query user_profile w
         = (format_result <$> dicts, Some w')
      /\ p_score <$> (format_result <$> dicts) = p_score <$> dicts
      /\ Forall (fun e =>
                   is_Some (p_id e) /\ is_Some (p_title e)
                   /\ is_Some (p_description e) /\ is_Some (p_link e)
                   /\ is_Some (p_score e)
                   /\ p_categories e = None /\ p_price_tier e = None
                   /\ p_base_ctr e = None)
                (format_result <$> dicts)
  end.
Proof.
  unfold search_promotions_tool.
  destruct (search encode_text np_dot np_linalg_norm query top_k
                   (Some user_profile) w) as [[results w']|] eqn:Hsearch;
    [|reflexivity].
  pose proof (SearchExtra.search_results_scored _ _ _ _ _ _ _ _ _ Hsearch)
    as Hlive.
  destruct (mapM (fun r => heap w' !! r) results) as [dicts|] eqn:E.
  - exists dicts. apply mapM_Some_1 in E.
    assert (Forall2 (fun r d => heap w' !! r = Some d /\ is_Some (p_score d))
                    results dicts) as Hdicts.
    { eapply Forall2_impl;
        [exact (Forall2_and_Forall_l _ _ _ _ E Hlive)|].
      intros r d [Hr (d' & Hr' & Hs)]. split; [exact Hr|]. congruence. }
    split; [exact Hdicts|]. split; [reflexivity|]. split.
    + rewrite <- list_fmap_compose. apply Forall_fmap_ext_1.
      eapply Forall2_Forall_r; [exact Hdicts|].
      apply Forall_forall. intros r _ d [_ [s Hs]]. cbn.
      unfold get. rewrite Hs. reflexivity.
    + apply Forall_fmap, Forall_forall. intros d _. cbn.
      repeat split; eauto.
  - exfalso.
    assert (is_Some (mapM (fun r => heap w' !! r) results)) as [? ?];
      [|congruence].
    apply mapM_is_Some_2. eapply Forall_impl; [exact Hlive|].
    intros r (d & Hr & _). cbn. eauto.
Qed.

(** X19. The demo agent's removal of duplicates never raises on search
    responses: every entry the search tool returns has an id, whatever was
    stored, so the responses of any number of searches can be merged. *)
Theorem dedupe_of_search_responses_never_raises encode_text np_dot
    np_linalg_norm
    (calls : list (option Z * string * UserProfile * World)) :
  is_Some
    (unique_promotions
       (concat
          (map (fun '(max_results, query, user_profile, w) =>
                  (search_promotions_tool encode_text np_dot np_linalg_norm
                     max_results query user_profile w).1)
               calls))).
Proof.
  apply unique_from_is_Some, Forall_concat, Forall_forall.
  intros response Hin. change (map ?f ?l) with (f <$> l) in Hin.
  apply list_elem_of_fmap in Hin as ([[[max_results query] u] w] & -> & _).
  unfold search_promotions_tool.
  destruct max_results as [top_k|]; [|constructor].
  destruct (search _ _ _ _ _ _ _) as [[results w']|]; [|constructor].
  destruct (mapM _ results) as [dicts|]; [|constructor].
  cbn [fst]. change (map ?f ?l) with (f <$> l).
  apply Forall_fmap, Forall_forall. intros d _. cbn. eauto.
Qed.

(** X20. The removal of duplicates raises exactly when some dictionary of
    the list has no id, also when that dictionary comes after a kept one or
    would have been a duplicate. *)
Theorem unique_promotions_raises_iff_missing_id all_promotions :
  unique_promotions all_promotions = None
  <-> exists promo, promo ∈ all_promotions /\ p_id promo = None.
Proof.
  unfold unique_promotions.
  pose proof (unique_from_is_Some ∅ all_promotions) as H.
  rewrite <- not_eq_None_Some in H.
  split.
  - intros Hnone.
    destruct (decide (Exists (fun p => p_id p = None) all_promotions))
      as [Hex|Hnex].
    + apply Exists_exists in Hex. exact Hex.
    + exfalso. apply H; [|exact Hnone].
      apply Forall_forall. intros p Hp.
      destruct (p_id p) eqn:E; [eauto|].
      exfalso. apply Hnex, Exists_exists. eauto.
  - intros (p & Hp & Hid).
    destruct (unique_from ∅ all_promotions) eqn:E; [|reflexivity].
    exfalso.
    assert (Forall (fun p => is_Some (p_id p)) all_promotions) as Hall
      by (apply H; congruence).
    rewrite Forall_forall in Hall. destruct (Hall p Hp) as [i Hi].
    congruence.
Qed.

(** X21. When it does not raise, the removal of duplicates keeps the first
    dictionary of every id and nothing else: the output is a sublist of the
    input with pairwise distinct ids, every input id is still present, the
    dictionary kept for an id is the first one of the input with that id,
    and removing duplicates a second time changes nothing. *)
Theorem unique_promotions_keeps_first_of_each_id all_promotions out :
  unique_promotions all_promotions = Some out ->
  out `sublist_of` all_promotions
  /\ NoDup (p_id <$> out)
  /\ (forall promo, promo ∈ all_promotions ->
        exists kept, kept ∈ out /\ p_id kept = p_id promo)
  /\ (forall before promo after,
        all_promotions = before ++ promo :: after ->
        p_id promo ∉ p_id <$> before -> promo ∈ out)
  /\ unique_promotions out = Some out.
Proof.
  unfold unique_promotions. intros H.
  destruct (unique_from_spec _ _ _ H) as (Hsub & Hnd & Hout & Hcov & Hfirst).
  repeat split; [assumption | assumption | | |].
  - intros p Hp. destruct (Hcov p Hp) as (i & Hi & [Hs|(q & Hq & Hqi)]).
    + now apply not_elem_of_empty in Hs.
    + exists q. split; [assumption | congruence].
  - intros l1 p l2 Hl Hnot.
    destruct (Hcov p) as (i & Hi & _).
    { rewrite Hl. apply elem_of_app; right. apply list_elem_of_here. }
    apply (Hfirst l1 p l2 i); auto.
    + apply not_elem_of_empty.
    + now rewrite <- Hi.
  - now apply unique_from_fixed.
Qed.

Lemma unique_promotions_keeps_first_of_each_id_witness :
  unique_promotions [hosting_deal; test_1; hosting_deal; test_2; test_1]
  = Some [hosting_deal; test_1; test_2]
  /\ NoDup (p_id <$> [hosting_deal; test_1; test_2])
  /\ unique_promotions [hosting_deal; test_1; test_2]
     = Some [hosting_deal; test_1; test_2].
Proof.
  assert (unique_promotions
            [hosting_deal; test_1; hosting_deal; test_2; test_1]
          = Some [hosting_deal; test_1; test_2]) as H
    by (vm_compute; reflexivity).
  destruct (unique_promotions_keeps_first_of_each_id _ _ H)
    as (_ & Hnd & _ & _ & Hfix).
  repeat split; assumption.
Defined.

End PipelineExtra.

(** ** Query expansion: the rule-based fallback and the tool around it *)

Module ExpandQueryExtra.

Import PyList PyListFacts ExpandQuery Examples2.

Lemma contains_unfold needle hay :
  contains needle hay
  = String.prefix needle hay
    || match hay with
       | EmptyString => false
       | String _ hay' => contains needle hay'
       end.
Proof. destruct hay; reflexivity. Qed.

Lemma prefix_refl (s : string) : String.prefix s s = true.
Proof.
  induction s as [|a s IH]; [reflexivity|].
  cbn [String.prefix]. destruct (ascii_dec a a); [exact IH | contradiction].
Qed.

Lemma contains_refl (s : string) : contains s s = true.
Proof. now rewrite contains_unfold, prefix_refl. Qed.

Lemma contains_prefix (s t : string) : contains s (s +:+ t) = true.
Proof. now rewrite contains_unfold, PlacementExtra.prefix_app. Qed.

Lemma contains_app_l (a s t : string) :
  contains s t = true -> contains s (a +:+ t) = true.
Proof.
  intros H. induction a as [|c a IH]; [exact H|].
  change (String c a +:+ t) with (String c (a +:+ t)).
  rewrite contains_unfold, IH. apply orb_true_r.
Qed.

Section Model.
Variable lower : string -> string.

(** The promotional terms that are not already in the lower-cased query. *)
Lemma fallback_expansion_unfold query :
  exists category,
    length category = 3
    /\ Forall (fun e => contains query e = true) category
    /\ _fallback_expansion lower query
       = take 5 (([query]
                  ++ map (fun term => query +:+ " " +:+ term)
                         (List.filter
                            (fun term => negb (contains term (lower query)))
                            promo_terms))
                 ++ category).
Proof.
  unfold _fallback_expansion. cbv zeta.
  repeat match goal with
         | |- context [if ?b then _ else _] => destruct b
         end;
    (eexists; split; [|split; [|reflexivity]]; [reflexivity|]);
    repeat constructor;
    auto using contains_prefix, contains_app_l, contains_refl.
Qed.

Lemma fallback_expansion_head_length query :
  head (_fallback_expansion lower query) = Some query
  /\ length (_fallback_expansion lower query)
     = Nat.min 5 (4 + length (List.filter
                                (fun term =>
                                   negb (contains term (lower query)))
                                promo_terms)).
Proof.
  destruct (fallback_expansion_unfold query) as (category & Hlen & _ & ->).
  split; [reflexivity|].
  rewrite length_take, !length_app, length_map, Hlen. cbn [length]. lia.
Qed.

End Model.

(** X22. The rule-based expansion always starts with the query itself, has
    four entries when the lower-cased query already contains all six
    promotional terms and five otherwise, and every entry contains the
    query. *)
Theorem fallback_expansion_shape lower query :
  let absent :=
    List.filter (fun term => negb (contains term (lower query)))
                promo_terms in
  let expansions := _fallback_expansion lower query in
  head expansions = Some query
  /\ length expansions = Nat.min 5 (4 + length absent)
  /\ (length expansions = 4 \/ length expansions = 5)
  /\ Forall (fun e => contains query e = true) expansions.
Proof.
  intros absent expansions.
  destruct (fallback_expansion_head_length lower query) as [Hhead Hl].
  fold absent in Hl. fold expansions in Hl, Hhead.
  split; [exact Hhead|]. split; [exact Hl|]. split; [lia|].
  destruct (fallback_expansion_unfold lower query)
    as (category & _ & Hcat & E).
  unfold expansions. rewrite E.
  apply Forall_take, Forall_app. split; [|exact Hcat].
  apply Forall_app. split.
  - repeat constructor. apply contains_refl.
  - change (map ?f ?l) with (f <$> l). apply Forall_fmap, Forall_forall.
    intros term _. apply contains_prefix.
Qed.

(** X23. When at least four promotional terms are absent from the query,
    the category-specific expansions are computed but never returned: the
    answer is the query followed by the query with each of the first four
    absent terms, whatever the query is about. *)
Theorem promo_terms_crowd_out_category_expansions lower query :
  let absent :=
    List.filter (fun term => negb (contains term (lower query)))
                promo_terms in
  4 <= length absent ->
  _fallback_expansion lower query
  = query :: take 4 (map (fun term => query +:+ " " +:+ term) absent).
Proof.
  intros absent Habsent.
  destruct (fallback_expansion_unfold lower query) as (category & _ & _ & E).
  fold absent in E. rewrite E. cbn [app take]. f_equal.
  apply take_app_le. rewrite length_map. exact Habsent.
Qed.

Lemma promo_terms_crowd_out_category_expansions_witness :
  _fallback_expansion lower_ascii "cheap laptop deals"
  = ["cheap laptop deals"; "cheap laptop deals discount";
     "cheap laptop deals sale"; "cheap laptop deals offer";
     "cheap laptop deals promotion"].
Proof.
  rewrite (promo_terms_crowd_out_category_expansions lower_ascii
             "cheap laptop deals").
  - vm_compute. reflexivity.
  - vm_compute. lia.
Defined.

(** X24. Without an available provider the tool answers with the rule-based
    expansion cut to [max_queries]: at most [max_queries] entries when that
    number is not negative, and the query first when it is positive. *)
Theorem expand_query_tool_without_provider lower _expand_with_openai
    _expand_with_anthropic provider OPENAI_AVAILABLE ANTHROPIC_AVAILABLE
    max_queries query :
  provider <> "openai" \/ OPENAI_AVAILABLE = false ->
  provider <> "anthropic" \/ ANTHROPIC_AVAILABLE = false ->
  let expanded :=
    expand_query_tool lower _expand_with_openai _expand_with_anthropic
      provider OPENAI_AVAILABLE ANTHROPIC_AVAILABLE max_queries query in
  expanded = slice_to max_queries (_fallback_expansion lower query)
  /\ ((0 <= max_queries)%Z -> (Z.of_nat (length expanded) <= max_queries)%Z)
  /\ ((1 <= max_queries)%Z -> head expanded = Some query).
Proof.
  intros Ho Ha expanded.
  assert (expanded = slice_to max_queries (_fallback_expansion lower query))
    as E.
  { unfold expanded, expand_query_tool.
    replace (String.eqb provider "openai" && OPENAI_AVAILABLE) with false.
    2:{ destruct Ho as [Ho| ->]; [|now rewrite andb_false_r].
        apply String.eqb_neq in Ho. now rewrite Ho. }
    replace (String.eqb provider "anthropic" && ANTHROPIC_AVAILABLE)
      with false.
    2:{ destruct Ha as [Ha| ->]; [|now rewrite andb_false_r].
        apply String.eqb_neq in Ha. now rewrite Ha. }
    reflexivity. }
  clearbody expanded. subst expanded. split; [reflexivity|]. split.
  - intros Hk. rewrite length_slice_to by exact Hk. lia.
  - intros Hk.
    destruct (fallback_expansion_head_length lower query) as [Hhead _].
    unfold slice_to. destruct (Z.leb_spec 0 max_queries); [|lia].
    destruct (_fallback_expansion lower query) as [|q qs]; [discriminate|].
    destruct (Z.to_nat max_queries) eqn:En; [lia|]. exact Hhead.
Qed.

Lemma expand_query_tool_without_provider_witness :
  expand_query_tool lower_ascii (fun _ _ => None) (fun _ _ => None)
    "openai" false false 2 "cloud hosting"
  = ["cloud hosting"; "cloud hosting deal"].
Proof.
  destruct (expand_query_tool_without_provider lower_ascii
              (fun _ _ => None) (fun _ _ => None) "openai" false false 2
              "cloud hosting") as (E & _ & _).
  - now right.
  - now right.
  - rewrite E. vm_compute. reflexivity.
Defined.

(** X25. When the selected provider is available and its call raises, the
    tool answers with the whole rule-based expansion: [max_queries] is not
    applied on this path, so the answer has four or five entries even when
    fewer were asked for. *)
Theorem expand_query_tool_error_ignores_limit lower _expand_with_openai
    _expand_with_anthropic provider OPENAI_AVAILABLE ANTHROPIC_AVAILABLE
    max_queries query :
  (provider = "openai" /\ OPENAI_AVAILABLE = true
   /\ _expand_with_openai query max_queries = None)
  \/ (provider = "anthropic" /\ ANTHROPIC_AVAILABLE = true
      /\ _expand_with_anthropic query max_queries = None) ->
  let expanded :=
    expand_query_tool lower _expand_with_openai _expand_with_anthropic
      provider OPENAI_AVAILABLE ANTHROPIC_AVAILABLE max_queries query in
  expanded = _fallback_expansion lower query
  /\ 4 <= length expanded.
Proof.
  intros H expanded.
  assert (expanded = _fallback_expansion lower query) as E.
  { unfold expanded, expand_query_tool.
    destruct H as [(-> & -> & Hraise)|(-> & -> & Hraise)]; cbn;
      now rewrite Hraise. }
  split; [exact E|]. rewrite E.
  destruct (fallback_expansion_head_length lower query) as [_ Hlen].
  lia.
Qed.

Lemma expand_query_tool_error_ignores_limit_witness :
  length (expand_query_tool lower_ascii (fun _ _ => None) (fun _ _ => None)
            "openai" true false 2 "cloud hosting") = 5.
Proof.
  destruct (expand_query_tool_error_ignores_limit lower_ascii
              (fun _ _ => None) (fun _ _ => None) "openai" true false 2
              "cloud hosting") as [E _].
  - left. repeat split.
  - rewrite E. vm_compute. reflexivity.
Defined.

End ExpandQueryExtra.
